(** * replicate-go, prediction.go: predictions of the Replicate client

    A shallow embedding of [prediction.go] and the properties of its
    progress parser, request builder, raw-payload retention and the four
    prediction operations.

    Go strings are byte sequences; the text the progress parser works on is
    a [list ascii] (type [text]), map keys and plain fields are [string]. *)

From Stdlib Require Import ZArith Lia Bool Ascii String List PrimFloat Uint63.
From stdpp Require Import gmap strings list sorting pretty.

Set Warnings "-register-all".

Open Scope string_scope.
Open Scope list_scope.

(** ** Text *)

Abbreviation text := (list ascii).

Definition bytes_of (s : string) : text := list_ascii_of_string s.

Definition code (a : ascii) : N := N_of_ascii a.

(** ** Package regexp: the fragment of RE2 syntax the progress pattern uses,
    matched with Go's leftmost-first (backtracking priority) semantics.

    Go matches runes and this model bytes.  For the classes below that makes
    no difference: [\d], [\s] and the literals are ASCII, [.] takes any rune
    but the newline, and no byte of a rune of several bytes is ASCII, so a
    match ends and its groups start and end at the same bytes. *)

Module Regexp.

(** A class matches one byte.  [\d] and [\s] are ASCII-only in Go, and [.]
    excludes the newline when the [s] flag is off. *)
Inductive cclass : Type :=
| Lit (a : ascii)
| Digit
| Space
| AnyNotNL.

Definition in_class (cl : cclass) (a : ascii) : bool :=
  match cl with
  | Lit b => Ascii.eqb a b
  | Digit => (48 <=? code a)%N && (code a <=? 57)%N
  | Space =>
      (code a =? 9)%N || (code a =? 10)%N || (code a =? 12)%N
      || (code a =? 13)%N || (code a =? 32)%N
  | AnyNotNL => negb (code a =? 10)%N
  end.

Inductive regex : Type :=
| Empty
| BeginText
| Class (cl : cclass)
| Cat (r1 r2 : regex)
| Star (greedy : bool) (r : regex)
| Group (i : nat) (r : regex).

(** [x+] is [xx*], [x+?] is [xx*?]. *)
Definition Plus (greedy : bool) (r : regex) : regex := Cat r (Star greedy r).

(** Submatches: index 0 is the whole match, index [i] the text of group [i]. *)
Abbreviation caps := (list text).

(** A continuation receives whether the position is still the beginning of
    the text, the remaining input and the submatches so far. *)
Definition cont : Type := bool -> text -> caps -> option caps.

Definition orelse (x y : option caps) : option caps :=
  match x with
  | Some c => Some c
  | None => y
  end.

(** The loop of a star: a greedy star tries one more iteration before it
    lets the rest of the pattern run, a lazy star the other way round.  An
    iteration has to consume input. *)
Fixpoint star_loop (greedy : bool) (step : cont -> cont) (k : cont) (n : nat)
    (b : bool) (s : text) (c : caps) : option caps :=
  match n with
  | O => k b s c
  | S n' =>
      let more :=
        step (fun b' s' c' =>
                if (length s' <? length s)%nat
                then star_loop greedy step k n' b' s' c'
                else None) b s c in
      if greedy then orelse more (k b s c) else orelse (k b s c) more
  end.

Fixpoint rmatch (r : regex) (k : cont) (b : bool) (s : text) (c : caps)
    {struct r} : option caps :=
  match r with
  | Empty => k b s c
  | BeginText => if b then k b s c else None
  | Class cl =>
      match s with
      | a :: s' => if in_class cl a then k false s' c else None
      | [] => None
      end
  | Cat r1 r2 => rmatch r1 (rmatch r2 k) b s c
  | Star greedy r1 => star_loop greedy (rmatch r1) k (S (length s)) b s c
  | Group i r1 =>
      rmatch r1
        (fun b' s' c' => k b' s' (<[i := take (length s - length s') s]> c'))
        b s c
  end.

Fixpoint num_groups (r : regex) : nat :=
  match r with
  | Empty | BeginText | Class _ => 0
  | Cat r1 r2 => Nat.max (num_groups r1) (num_groups r2)
  | Star _ r1 => num_groups r1
  | Group i r1 => Nat.max i (num_groups r1)
  end.

(** One attempt at a fixed start position. *)
Definition match_here (re : regex) (b : bool) (s : text) : option caps :=
  rmatch re
    (fun _ s' c => Some (<[0 := take (length s - length s') s]> c))
    b s (replicate (S (num_groups re)) []).

(** The leftmost match: start positions are tried from left to right. *)
Fixpoint search (re : regex) (b : bool) (s : text) : option caps :=
  match match_here re b s with
  | Some c => Some c
  | None =>
      match s with
      | [] => None
      | _ :: s' => search re false s'
      end
  end.

(** [re.FindStringSubmatch(s)]: the submatches of the leftmost match, or the
    nil slice (the empty list) when there is none. *)
Definition FindStringSubmatch (re : regex) (s : text) : list text :=
  match search re true s with
  | Some c => c
  | None => []
  end.

(** [re.MatchString(s)] *)
Definition MatchString (re : regex) (s : text) : bool :=
  match search re true s with
  | Some _ => true
  | None => false
  end.

(** *** What a pattern matches, without the priorities

    [Matches r b w c c']: [r] matches exactly the text [w], at the beginning
    of the text when [b], and turns the submatches [c] into [c']. *)

Definition nilb (w : text) : bool :=
  match w with
  | [] => true
  | _ :: _ => false
  end.

Inductive Matches : regex -> bool -> text -> caps -> caps -> Prop :=
| M_Empty b c : Matches Empty b [] c c
| M_BeginText c : Matches BeginText true [] c c
| M_Class cl a b c : in_class cl a = true -> Matches (Class cl) b [a] c c
| M_Cat r1 r2 b w1 w2 c c1 c2 :
    Matches r1 b w1 c c1 ->
    Matches r2 (b && nilb w1) w2 c1 c2 ->
    Matches (Cat r1 r2) b (w1 ++ w2) c c2
| M_Star_nil g r b c : Matches (Star g r) b [] c c
| M_Star_cons g r b w1 w2 c c1 c2 :
    w1 <> [] ->
    Matches r b w1 c c1 ->
    Matches (Star g r) false w2 c1 c2 ->
    Matches (Star g r) b (w1 ++ w2) c c2
| M_Group i r b w c c' :
    Matches r b w c c' -> Matches (Group i r) b w c (<[i := w]> c').

(** A run of the matcher is sound for [r]: a result comes from a text [w]
    that [r] matches at the head of the input, with the rest of the pattern
    run on what follows. *)
Definition sound_at (r : regex) (run : cont -> cont) : Prop :=
  forall k b s c res,
    run k b s c = Some res ->
    exists w s' c',
      s = w ++ s' /\ Matches r b w c c' /\ k (b && nilb w) s' c' = Some res.

(** The matcher is complete on a text [w] that [r] matches: it finds a
    match whenever the rest of the pattern accepts what follows [w] (for a
    star, whatever fuel above the length of the input its loop is given). *)
Definition complete_at (r : regex) (b : bool) (w : text) (c c' : caps) : Prop :=
  (forall k s',
     is_Some (k (b && nilb w) s' c') -> is_Some (rmatch r k b (w ++ s') c))
  /\ (forall g r0, r = Star g r0 ->
      forall n k s',
        (length (w ++ s') < n)%nat ->
        is_Some (k (b && nilb w) s' c') ->
        is_Some (star_loop g (rmatch r0) k n b (w ++ s') c)).

(** *** Parsing the pattern syntax

    [^], [.], [\d], [\s], an escaped punctuation byte, a literal byte, the
    postfix operators [*], [+], [*?], [+?], and capturing groups [( )] and
    [(?P<name> )], numbered by their opening parenthesis.  Anything else
    is not in the fragment and makes [Compile] fail. *)

Definition is_special (a : ascii) : bool :=
  existsb (Ascii.eqb a) (bytes_of "\.+*?()|[]{}^$").

Definition is_alnum (a : ascii) : bool :=
  ((48 <=? code a)%N && (code a <=? 57)%N)
  || ((65 <=? code a)%N && (code a <=? 90)%N)
  || ((97 <=? code a)%N && (code a <=? 122)%N).

Definition is_word (a : ascii) : bool := is_alnum a || (code a =? 95)%N.

(** The postfix operator at the head of the input, applied to [r]. *)
Definition parse_postfix (r : regex) (s : text) : regex * text :=
  match s with
  | "*"%char :: "?"%char :: s' => (Star false r, s')
  | "*"%char :: s' => (Star true r, s')
  | "+"%char :: "?"%char :: s' => (Plus false r, s')
  | "+"%char :: s' => (Plus true r, s')
  | _ => (r, s)
  end.

(** Skips the rest of a group name: the input after the closing [>]. *)
Fixpoint skip_name_rest (s : text) : option text :=
  match s with
  | ">"%char :: s' => Some s'
  | a :: s' => if is_word a then skip_name_rest s' else None
  | [] => None
  end.

(** Skips the non-empty name of [(?P<name>]. *)
Definition skip_name (s : text) : option text :=
  match s with
  | a :: s' => if is_word a then skip_name_rest s' else None
  | [] => None
  end.

(** [parse_seq fuel g s] parses a concatenation up to the end of the input
    or an unmatched [)]; [g] is the number of groups opened so far. *)
Fixpoint parse_seq (fuel : nat) (g : nat) (s : text)
    : option (regex * nat * text) :=
  match fuel with
  | O => None
  | S fuel' =>
      let continue (r : regex) (g' : nat) (rest : text) :=
        let (r', rest') := parse_postfix r rest in
        match parse_seq fuel' g' rest' with
        | Some (r2, g2, rest2) => Some (Cat r' r2, g2, rest2)
        | None => None
        end in
      let group (body : text) :=
        match parse_seq fuel' (S g) body with
        | Some (r, g', ")"%char :: rest) => continue (Group (S g) r) g' rest
        | _ => None
        end in
      match s with
      | [] => Some (Empty, g, [])
      | ")"%char :: _ => Some (Empty, g, s)
      | "^"%char :: rest => continue BeginText g rest
      | "."%char :: rest => continue (Class AnyNotNL) g rest
      | "\"%char :: "d"%char :: rest => continue (Class Digit) g rest
      | "\"%char :: "s"%char :: rest => continue (Class Space) g rest
      | "\"%char :: a :: rest =>
          if is_alnum a then None else continue (Class (Lit a)) g rest
      | "("%char :: "?"%char :: "P"%char :: "<"%char :: rest =>
          match skip_name rest with
          | Some body => group body
          | None => None
          end
      | "("%char :: "?"%char :: _ => None
      | "("%char :: body => group body
      | a :: rest =>
          if is_special a then None else continue (Class (Lit a)) g rest
      end
  end.

(** [regexp.Compile] *)
Definition Compile (pattern : string) : option regex :=
  match parse_seq (S (String.length pattern)) 0 (bytes_of pattern) with
  | Some (r, _, []) => Some r
  | _ => None
  end.

(** [regexp.MustCompile] panics on a pattern that does not parse.  The one
    pattern of this file parses (lemma [MustCompile_pattern] below); the
    total model returns the empty pattern otherwise. *)
Definition MustCompile (pattern : string) : regex :=
  match Compile pattern with
  | Some r => r
  | None => Empty
  end.

End Regexp.

(** ** Package strings *)

Module Strings.

(** [strings.Split(s, sep)] for a one-byte separator (the only separator
    here is the newline).  A text without the separator, the empty text
    included, gives one element. *)
Fixpoint Split (s : text) (sep : ascii) : list text :=
  match s with
  | [] => [[]]
  | a :: s' =>
      if Ascii.eqb a sep then [] :: Split s' sep
      else
        match Split s' sep with
        | l :: ls => (a :: l) :: ls
        | [] => [[a]]
        end
  end.

(** The UTF-8 encodings of the code points with [unicode.IsSpace]: the six
    ASCII ones, U+0085, U+00A0, U+1680, U+2000 to U+200A, U+2028, U+2029,
    U+202F, U+205F and U+3000.  UTF-8 is prefix-free and only the shortest
    encoding is valid, so a text starts (ends) with a whitespace rune
    exactly when it starts (ends) with one of these byte sequences. *)
Definition space_units : list text :=
  map (map ascii_of_N)
    ([[9]; [10]; [11]; [12]; [13]; [32];
      [0xC2; 0x85]; [0xC2; 0xA0]; [0xE1; 0x9A; 0x80]]
     ++ map (fun n => [0xE2; 0x80; 0x80 + N.of_nat n]) (seq 0 11)
     ++ [[0xE2; 0x80; 0xA8]; [0xE2; 0x80; 0xA9]; [0xE2; 0x80; 0xAF];
         [0xE2; 0x81; 0x9F]; [0xE3; 0x80; 0x80]])%N.

Fixpoint strip_prefix (u s : text) : option text :=
  match u, s with
  | [], _ => Some s
  | a :: u', b :: s' => if Ascii.eqb a b then strip_prefix u' s' else None
  | _ :: _, [] => None
  end.

(** The text after one leading unit out of [units], if it starts with one. *)
Fixpoint strip_unit (units : list text) (s : text) : option text :=
  match units with
  | [] => None
  | u :: units' =>
      match strip_prefix u s with
      | Some s' => Some s'
      | None => strip_unit units' s
      end
  end.

Fixpoint strip_units (units : list text) (n : nat) (s : text) : text :=
  match n with
  | O => s
  | S n' =>
      match strip_unit units s with
      | Some s' => strip_units units n' s'
      | None => s
      end
  end.

Definition TrimLeftSpace (s : text) : text :=
  strip_units space_units (length s) s.

Definition TrimRightSpace (s : text) : text :=
  reverse (strip_units (map reverse space_units) (length s) (reverse s)).

(** [strings.TrimSpace(s)]: [s] without leading and trailing white space. *)
Definition TrimSpace (s : text) : text := TrimRightSpace (TrimLeftSpace s).

End Strings.

(** ** Package fmt: [Sscanf] with the format ["%d"] and an [*int] operand *)

Module Fmt.

Definition max_int64 : Z := 2 ^ 63 - 1.
Definition min_int64 : Z := - 2 ^ 63.

Definition is_digit (a : ascii) : bool := (48 <=? code a)%N && (code a <=? 57)%N.

Definition digit_value (a : ascii) : Z := Z.of_N (code a) - 48.

(** The decimal value of the leading digits of [s], continuing [acc]. *)
Fixpoint scan_digits (acc : Z) (s : text) : Z :=
  match s with
  | a :: s' => if is_digit a then scan_digits (10 * acc + digit_value a) s' else acc
  | [] => acc
  end.

(** [SkipSpace]: white space before the operand is skipped, except that a
    newline there is an error. *)
Fixpoint skip_space (n : nat) (s : text) : option text :=
  match n with
  | O => Some s
  | S n' =>
      match s with
      | a :: _ =>
          if (code a =? 10)%N then None
          else
            match Strings.strip_unit Strings.space_units s with
            | Some s' => skip_space n' s'
            | None => Some s
            end
      | [] => Some s
      end
  end.

(** The optional sign in front of the digits. *)
Definition scan_sign (s : text) : bool * text :=
  match s with
  | "-"%char :: t => (true, t)
  | "+"%char :: t => (false, t)
  | _ => (false, s)
  end.

(** [scanInt] for the verb [d] at 64 bits: an optional sign, then at least
    one digit; [strconv.ParseInt] rejects a value outside the int64 range.
    [None] is a scan error. *)
Definition scan_int (s : text) : option Z :=
  match skip_space (length s) s with
  | None => None
  | Some s1 =>
      let '(neg, s2) := scan_sign s1 in
      match s2 with
      | a :: _ =>
          if is_digit a then
            let v := scan_digits 0 s2 in
            let v' := if neg then (- v)%Z else v in
            if ((min_int64 <=? v') && (v' <=? max_int64))%Z then Some v'
            else None
          else None
      | [] => None
      end
  end.

(** [fmt.Sscanf(str, "%d", &dst)] with the returned count and error
    dropped, as the caller does: the value of [dst] afterwards.  On a scan
    error the operand keeps its value. *)
Definition Sscanf_d (str : text) (dst : Z) : Z :=
  match scan_int str with
  | Some v => v
  | None => dst
  end.

End Fmt.

(** [float64(n)] for an [int], which has 64 bits here: rounding to nearest
    even. *)
Definition float64_of_nonneg (n : Z) : float :=
  if (n <? 2 ^ 63)%Z then PrimFloat.of_uint63 (Uint63.of_Z n)
  else (PrimFloat.of_uint63 (Uint63.of_Z (2 ^ 62)) * 2)%float.

Definition float64_of_int (z : Z) : float :=
  if (z <? 0)%Z then (- float64_of_nonneg (- z))%float
  else float64_of_nonneg z.

(** ** Errors

    [fmt.Errorf("msg: %w", cause)] is [ErrWrap msg cause]; any other error
    value is [ErrNew] with its message. *)

Inductive error : Type :=
| ErrNew (msg : string)
| ErrWrap (msg : string) (cause : error).

Fixpoint error_message (e : error) : string :=
  match e with
  | ErrNew msg => msg
  | ErrWrap msg cause => msg ++ ": " ++ error_message cause
  end.

(** [errors.Unwrap] *)
Definition Unwrap (e : error) : option error :=
  match e with
  | ErrNew _ => None
  | ErrWrap _ cause => Some cause
  end.

(** ** JSON documents

    A JSON text as a tree.  A number keeps its literal.  The value that
    [encoding/json] stores in an [interface{}] is this tree. *)

Inductive json : Type :=
| JNull
| JBool (b : bool)
| JNumber (lit : string)
| JString (s : string)
| JArray (items : list json)
| JObject (members : list (string * json)).

(** The value of the first member named [k] of an object. *)
Fixpoint assoc (k : string) (members : list (string * json)) : option json :=
  match members with
  | [] => None
  | (k', v) :: members' => if String.eqb k k' then Some v else assoc k members'
  end.

Definition json_get (k : string) (j : json) : option json :=
  match j with
  | JObject members => assoc k members
  | _ => None
  end.

(** ** The prediction entity *)

Definition Source : Type := string.
Definition SourceWeb : Source := "web".
Definition SourceAPI : Source := "api".

Definition Status : Type := string.
Definition WebhookEventType : Type := string.

(** The metrics: a [*float64] is kept as the number literal it was decoded
    from, an [*int] as its value. *)
Record PredictionMetrics : Type := {
  PredictTime : option string;
  TotalTime : option string;
  InputTokenCount : option Z;
  OutputTokenCount : option Z;
  TimeToFirstToken : option string;
  TokensPerSecond : option string
}.

(** The exported fields of [Prediction], that is what [encoding/json] sees
    through [Alias].  A nil map is the empty map, a nil slice the empty
    list, a nil pointer or interface [None] or [JNull]. *)
Record Alias : Type := {
  ID : string;
  Status_ : Status;
  Model : string;
  Version : string;
  Input : gmap string json;
  Output : json;
  Source_ : Source;
  Error : json;
  Logs : option string;
  Metrics : option PredictionMetrics;
  Webhook_ : option string;
  WebhookEventsFilter : list WebhookEventType;
  URLs : gmap string string;
  CreatedAt : string;
  StartedAt : option string;
  CompletedAt : option string
}.

(** [Prediction]: the exported fields and the unexported [rawJSON]. *)
Record Prediction : Type := {
  exported :> Alias;
  rawJSON : text
}.

(** [&Prediction{}] *)
Definition zero_Alias : Alias :=
  {| ID := ""; Status_ := ""; Model := ""; Version := ""; Input := ∅;
     Output := JNull; Source_ := ""; Error := JNull; Logs := None;
     Metrics := None; Webhook_ := None; WebhookEventsFilter := [];
     URLs := ∅; CreatedAt := ""; StartedAt := None; CompletedAt := None |}.

Definition zero_Prediction : Prediction :=
  {| exported := zero_Alias; rawJSON := [] |}.


(** [json.Unmarshal(data, alias)] at the type [Alias]: the fields after the
    call and the error, if any.  It never reaches [rawJSON], which is
    unexported and tagged ["-"]. *)
Definition decoder : Type := text -> Alias -> Alias * option error.

(** [UnmarshalJSON]: the raw payload is stored first, then the fields are
    decoded into the same value.  The payload is kept as the bytes it has
    at the call; that the slice is shared with the caller's buffer is not
    modelled. *)
Definition UnmarshalJSON (json_Unmarshal : decoder) (p : Prediction)
    (data : text) : Prediction * option error :=
  let p := {| exported := exported p; rawJSON := data |} in
  let '(a, err) := json_Unmarshal data (exported p) in
  ({| exported := a; rawJSON := rawJSON p |}, err).

(** ** Progress *)

Record PredictionProgress : Type := {
  Percentage : float;
  Current : Z;
  Total : Z
}.


Definition pattern : string :=
  "^\s*(?P<percentage>\d+)%\s*\|.+?\|\s*(?P<current>\d+)\/(?P<total>\d+)".

(** The snapshot built from the four submatches (lines 90 to 98): the
    three integers start at zero and are scanned from groups 1 to 3. *)
Definition snapshot_of (matches : list text) : PredictionProgress :=
  let percentage := Fmt.Sscanf_d (matches !!! 1%nat) 0 in
  let current := Fmt.Sscanf_d (matches !!! 2%nat) 0 in
  let total := Fmt.Sscanf_d (matches !!! 3%nat) 0 in
  {| Percentage := float64_of_int percentage / float64_of_int 100;
     Current := current;
     Total := total |}.

(** The loop [for i := len(lines) - 1; i >= 0; i--], with [n = i + 1].  The
    pattern is tried on the trimmed line, the submatches are taken from the
    line as it is. *)
Fixpoint Progress_loop (re : Regexp.regex) (lines : list text) (n : nat)
    : option PredictionProgress :=
  match n with
  | O => None
  | S i =>
      let line := Strings.TrimSpace (lines !!! i) in
      if Regexp.MatchString re line then
        let matches := Regexp.FindStringSubmatch re (lines !!! i) in
        if (length matches =? 4)%nat then Some (snapshot_of matches)
        else Progress_loop re lines i
      else Progress_loop re lines i
  end.

Definition Progress (p : Prediction) : option PredictionProgress :=
  match Logs p with
  | None => None
  | Some logs =>
      if String.eqb logs "" then None
      else
        let re := Regexp.MustCompile pattern in
        let lines := Strings.Split (bytes_of logs) "010"%char in
        if (length lines =? 0)%nat then None
        else Progress_loop re lines (length lines)
  end.

(** The compiled pattern. *)
Definition progress_re : Regexp.regex :=
  Eval vm_compute in Regexp.MustCompile pattern.

Definition all_in (cl : Regexp.cclass) (w : text) : Prop :=
  Forall (fun a => Regexp.in_class cl a = true) w.

(** [w] is a text the pattern matches, with the three groups [pct], [cur]
    and [tot]: white space, digits, [%], white space, [|], one or more
    bytes other than a newline, [|], white space, digits, [/], digits. *)
Definition progress_match (w pct cur tot : text) : Prop :=
  exists ws1 ws2 dots ws3,
    w = ws1 ++ pct ++ "%"%char :: ws2 ++ "|"%char :: dots
           ++ "|"%char :: ws3 ++ cur ++ "/"%char :: tot
    /\ all_in Regexp.Space ws1
    /\ all_in Regexp.Digit pct /\ pct <> []
    /\ all_in Regexp.Space ws2
    /\ all_in Regexp.AnyNotNL dots /\ dots <> []
    /\ all_in Regexp.Space ws3
    /\ all_in Regexp.Digit cur /\ cur <> []
    /\ all_in Regexp.Digit tot /\ tot <> [].

(** A line the pattern matches: it starts with such a text. *)
Definition matching_line (line : text) : Prop :=
  exists w rest pct cur tot, line = w ++ rest /\ progress_match w pct cur tot.

(** [s] does not start with a byte of the class [cl]. *)
Definition not_starting (cl : Regexp.cclass) (s : text) : Prop :=
  match s with
  | a :: _ => Regexp.in_class cl a = false
  | [] => True
  end.

(** A text of the shape the pattern matches, from its parts. *)
Definition progress_text (ws1 pct ws2 dots ws3 cur tot : text) : text :=
  ws1 ++ pct ++ "%"%char :: ws2 ++ "|"%char :: dots
      ++ "|"%char :: ws3 ++ cur ++ "/"%char :: tot.

(** The parts of a line whose bar holds no [|]: white space, the digits of
    the percentage, white space, the bar, white space, the digits of
    current and of total, and a rest that does not go on with a digit. *)
Definition plain_progress (ws1 pct ws2 dots ws3 cur tot rest : text) : Prop :=
  all_in Regexp.Space ws1
  /\ all_in Regexp.Digit pct /\ pct <> []
  /\ all_in Regexp.Space ws2
  /\ all_in Regexp.AnyNotNL dots /\ dots <> [] /\ ("|"%char ∉ dots)
  /\ all_in Regexp.Space ws3
  /\ all_in Regexp.Digit cur /\ cur <> []
  /\ all_in Regexp.Digit tot /\ tot <> []
  /\ not_starting Regexp.Digit rest.

(** What [Sscanf] leaves in an [int] that was zero, for a group of digits:
    the decimal value of the group, or zero when that is out of range. *)
Definition int_of_group (ds : text) : Z :=
  let n := Fmt.scan_digits 0 ds in
  if (n <=? Fmt.max_int64)%Z then n else 0%Z.

(** ** Results of calls

    A Go call that returns [(x, err)] gives [Ok x] or [Err err]; [Panic] is
    a run-time panic that unwinds the call. *)

Inductive result (A : Type) : Type :=
| Ok (a : A)
| Err (e : error)
| Panic (msg : string).

Arguments Ok {A} a.
Arguments Err {A} e.
Arguments Panic {A} msg.

(** ** Go values and the maps that hold them

    Maps are reference values: a map lives in the heap and a map value is
    its location, so that the caller and the callee see the same map. *)

Abbreviation loc := positive.

Module File.

(** Modelled from the spec: the struct [File] is declared outside
    [prediction.go]; a file-like reference is a value exposing a "get"
    retrieval URL, which the code reads as [file.URLs["get"]]. *)
Record t : Type := { URLs : gmap string string }.

End File.

Module Webhook.

(** The struct [Webhook], declared outside [prediction.go], with the two
    fields the request builder reads. *)
Record t : Type := { URL : string; Events : list WebhookEventType }.

End Webhook.

(** The dynamic values ([interface{}]) of a payload.  [VFile None] is a nil
    [*File], [VMap None] a nil map, and [VFunc] stands for the values that
    [encoding/json] cannot encode. *)
Inductive value : Type :=
| VNil
| VBool (b : bool)
| VInt (z : Z)
| VString (s : string)
| VSlice (vs : list value)
| VEvents (es : list WebhookEventType)
| VFile (f : option File.t)
| VMap (m : option loc)
| VFunc.

Abbreviation heap := (gmap loc (gmap string value)).

Definition heap_get (h : heap) (l : loc) : gmap string value :=
  default ∅ (h !! l).

(** [m[k] = v] for the map at [l] *)
Definition heap_store (l : loc) (k : string) (v : value) (h : heap) : heap :=
  <[l := <[k := v]> (heap_get h l)]> h.

(** ** Package encoding/json: [Marshal] *)

Definition key_le {A : Type} (x y : string * A) : Prop := String.le x.1 y.1.

Global Instance key_le_dec {A : Type} : RelDecision (@key_le A).
Proof. intros x y. unfold key_le. apply _. Defined.

(** The entries of a map in the order of their keys, as [Marshal] writes
    them. *)
Definition sorted_entries {A : Type} (m : gmap string A) : list (string * A) :=
  merge_sort key_le (map_to_list m).

Fixpoint marshal_members (f : value -> result json)
    (kvs : list (string * value)) : result (list (string * json)) :=
  match kvs with
  | [] => Ok []
  | (k, v) :: kvs' =>
      match f v with
      | Ok j =>
          match marshal_members f kvs' with
          | Ok js => Ok ((k, j) :: js)
          | Err e => Err e
          | Panic msg => Panic msg
          end
      | Err e => Err e
      | Panic msg => Panic msg
      end
  end.

Definition marshal_urls (m : gmap string string) : json :=
  JObject (prod_map id JString <$> sorted_entries m).

Definition result_map {A B : Type} (f : A -> B) (x : result A) : result B :=
  match x with
  | Ok a => Ok (f a)
  | Err e => Err e
  | Panic msg => Panic msg
  end.

(** The encodings of the elements of a slice, up to the first that fails. *)
Definition marshal_items (f : value -> result json)
    : list value -> result (list json) :=
  fix items (vs : list value) : result (list json) :=
    match vs with
    | [] => Ok []
    | v :: vs' =>
        match f v with
        | Ok j => result_map (cons j) (items vs')
        | Err e => Err e
        | Panic msg => Panic msg
        end
    end.

(** The encoding of a value, given the encoding [enter] of the map at a
    location. *)
Fixpoint marshal_with (enter : loc -> result json) (v : value) : result json :=
  match v with
  | VNil => Ok JNull
  | VBool b => Ok (JBool b)
  | VInt z => Ok (JNumber (pretty z))
  | VString s => Ok (JString s)
  | VSlice vs => result_map JArray (marshal_items (marshal_with enter) vs)
  | VEvents es => Ok (JArray (JString <$> es))
  | VFile None => Ok JNull
  | VFile (Some f) => Ok (JObject [("urls", marshal_urls (File.URLs f))])
  | VMap None => Ok JNull
  | VMap (Some l) => enter l
  | VFunc => Err (ErrNew "json: unsupported type: func()")
  end.

(** [fuel] bounds the number of maps entered on one path; a path that
    enters more maps than the heap has runs through a cycle, which
    [Marshal] reports as an error. *)
Fixpoint Marshal_fuel (fuel : nat) (h : heap) (v : value) {struct fuel}
    : result json :=
  marshal_with
    (fun l =>
       match fuel with
       | O => Err (ErrNew "json: unsupported value: encountered a cycle")
       | S fuel' =>
           result_map JObject
             (marshal_members (Marshal_fuel fuel' h)
                (sorted_entries (heap_get h l)))
       end) v.

(** [json.Marshal(v)], as the document whose text it returns.  A map is
    written with its keys in order; a slice of this model is not nil. *)
Definition Marshal (h : heap) (v : value) : result json :=
  Marshal_fuel (S (size h)) h v.

(** ** The client and its collaborators *)

Variant Context : Type := ctx_background | ctx_canceled.

(** [*http.Request], as far as this file hands it on.  A body is kept as
    the JSON document it is the text of. *)
Record Request : Type := {
  req_method : string;
  req_url : string;
  req_body : json
}.

(** Modelled from the spec: the page container, declared outside
    [prediction.go]: a sequence of entities plus cursor-based pagination
    metadata. *)
Record Page (T : Type) : Type := {
  Previous : option string;
  Next : option string;
  Results : list T
}.

Arguments Previous {T} _.
Arguments Next {T} _.
Arguments Results {T} _.

Definition zero_Page {T : Type} : Page T :=
  {| Previous := None; Next := None; Results := [] |}.

(** The methods of [Client] that [prediction.go] calls and that are
    declared elsewhere: [newRequest], [do] and [fetch], the last at its two
    result types.  [do] and [fetch] fill the value passed for [out] and
    return the error, if any. *)
Record Client : Type := {
  newRequest : Context -> string -> string -> json -> result Request;
  do : Request -> Prediction -> Prediction * option error;
  fetch_Prediction :
    Context -> string -> string -> option json -> Prediction
    -> Prediction * option error;
  fetch_Page :
    Context -> string -> string -> option json -> Page Prediction
    -> Page Prediction * option error
}.

Module Identifier.

(** The struct [ModelIdentifier] returned by [ParseIdentifier], both
    declared outside [prediction.go]. *)
Record t : Type := { Owner : string; Name : string; Version : option string }.

End Identifier.

Definition parser : Type := string -> result Identifier.t.

(** ** The request builder *)

(** The body of the loop over [input] for one entry: a [*File] is replaced
    by [file.URLs["get"]], the empty string when the key is missing, and a
    nil [*File] panics at [file.URLs].  [None] is the panic. *)
Definition convert_entry (input : loc) (acc : option heap)
    (entry : string * value) : option heap :=
  match acc with
  | None => None
  | Some h =>
      match entry.2 with
      | VFile (Some file) =>
          Some (heap_store input entry.1
                  (VString (default "" (File.URLs file !! "get"))) h)
      | VFile None => None
      | _ => Some h
      end
  end.

(** The loop [for key, value := range input]: the entries the map has when
    the loop starts are visited once each, in some order, and an assignment
    only replaces the value of the key visited. *)
Definition convert_files (input : option loc) (h : heap) : option heap :=
  match input with
  | None => Some h
  | Some l => foldl (convert_entry l) (Some h) (map_to_list (heap_get h l))
  end.

(** [createPredictionRequest].  At line 133 [data] is never nil, so the
    empty buffer of line 132 is never the body. *)
Definition createPredictionRequest (r : Client) (ctx : Context)
    (path : string) (data : option loc) (input : option loc)
    (webhook : option Webhook.t) (stream : bool) (h : heap)
    : heap * result Request :=
  match convert_files input h with
  | None => (h, Panic "invalid memory address or nil pointer dereference")
  | Some h =>
      let '(data, h) :=
        match data with
        | Some d => (d, h)
        | None => let d := fresh (dom h) in (d, <[d := ∅]> h)
        end in
      let h := heap_store data "input" (VMap input) h in
      let h :=
        match webhook with
        | Some w =>
            let h := heap_store data "webhook" (VString (Webhook.URL w)) h in
            if (0 <? length (Webhook.Events w))%nat
            then heap_store data "webhook_events_filter"
                   (VEvents (Webhook.Events w)) h
            else h
        | None => h
        end in
      let h := if stream then heap_store data "stream" (VBool true) h else h in
      match Marshal h (VMap (Some data)) with
      | Err e => (h, Err (ErrWrap "failed to marshal request body" e))
      | Panic msg => (h, Panic msg)
      | Ok bodyBuffer =>
          match newRequest r ctx "POST" path bodyBuffer with
          | Err e => (h, Err (ErrWrap "failed to create prediction request" e))
          | Panic msg => (h, Panic msg)
          | Ok req => (h, Ok req)
          end
      end
  end.

(** ** The four operations *)

(** [CreatePrediction].  The error of [ParseIdentifier] is only tested, and
    then overwritten by the one of the request builder. *)

Definition CreatePrediction (ParseIdentifier : parser) (r : Client)
    (ctx : Context) (identifier : string) (input : option loc)
    (webhook : option Webhook.t) (stream : bool) (h : heap)
    : heap * result Prediction :=
  match ParseIdentifier identifier with
  | Panic msg => (h, Panic msg)
  | parsed =>
      let data := fresh (dom h) in
      let h := <[data := ∅]> h in
      let '(path, h) :=
        match parsed with
        | Ok {| Identifier.Owner := owner; Identifier.Name := name;
                Identifier.Version := None |} =>
            (("/models/" ++ owner ++ "/" ++ name ++ "/predictions")%string, h)
        | _ => ("/predictions", heap_store data "version" (VString identifier) h)
        end in
      match createPredictionRequest r ctx path (Some data) input webhook stream h with
      | (h, Err e) => (h, Err e)
      | (h, Panic msg) => (h, Panic msg)
      | (h, Ok req) =>
          match do r req zero_Prediction with
          | (_, Some e) => (h, Err (ErrWrap "failed to create prediction" e))
          | (prediction, None) => (h, Ok prediction)
          end
      end
  end.

Definition ListPredictions (r : Client) (ctx : Context)
    : result (Page Prediction) :=
  match fetch_Page r ctx "GET" "/predictions" None zero_Page with
  | (_, Some e) => Err (ErrWrap "failed to list predictions" e)
  | (response, None) => Ok response
  end.

Definition GetPrediction (r : Client) (ctx : Context) (id : string)
    : result Prediction :=
  match
    fetch_Prediction r ctx "GET" ("/predictions/" ++ id) None zero_Prediction
  with
  | (_, Some e) => Err (ErrWrap "failed to get prediction" e)
  | (prediction, None) => Ok prediction
  end.

Definition CancelPrediction (r : Client) (ctx : Context) (id : string)
    : result Prediction :=
  match
    fetch_Prediction r ctx "POST" ("/predictions/" ++ id ++ "/cancel") None
      zero_Prediction
  with
  | (_, Some e) => Err (ErrWrap "failed to cancel prediction" e)
  | (prediction, None) => Ok prediction
  end.

(** ** A model of [json.Unmarshal] at the type [Alias]

    The properties below hold for every decoder; this one, written after
    the documentation of [encoding/json], serves the examples.  It checks
    the syntax of the whole text first, matches member names to field names
    without regard to case, leaves a field alone on [null] unless the field
    is a pointer, map, slice or interface, and on a value of the wrong kind
    keeps going and reports the first such error.  Error messages are
    abbreviated. *)

Module Json.

Definition quote : ascii := "034"%char.
Definition backslash : ascii := "092"%char.

Definition is_ws (a : ascii) : bool :=
  (code a =? 32)%N || (code a =? 9)%N || (code a =? 10)%N || (code a =? 13)%N.

Fixpoint skip_ws (s : text) : text :=
  match s with
  | a :: s' => if is_ws a then skip_ws s' else s
  | [] => []
  end.

Definition is_digit (a : ascii) : bool := (48 <=? code a)%N && (code a <=? 57)%N.

Definition hex_value (a : ascii) : option N :=
  let c := code a in
  if ((48 <=? c) && (c <=? 57))%N then Some (c - 48)%N
  else if ((97 <=? c) && (c <=? 102))%N then Some (c - 87)%N
  else if ((65 <=? c) && (c <=? 70))%N then Some (c - 55)%N
  else None.

Definition hex4 (s : text) : option (N * text) :=
  match s with
  | a :: b :: c :: d :: rest =>
      match hex_value a, hex_value b, hex_value c, hex_value d with
      | Some x, Some y, Some z, Some w =>
          Some (((x * 16 + y) * 16 + z) * 16 + w, rest)%N
      | _, _, _, _ => None
      end
  | _ => None
  end.

(** The UTF-8 encoding of a code point. *)
Definition utf8 (cp : N) : text :=
  map ascii_of_N
    (if (cp <? 0x80)%N then [cp]
     else if (cp <? 0x800)%N then [0xC0 + cp / 64; 0x80 + cp mod 64]
     else if (cp <? 0x10000)%N then
       [0xE0 + cp / 4096; 0x80 + (cp / 64) mod 64; 0x80 + cp mod 64]
     else
       [0xF0 + cp / 262144; 0x80 + (cp / 4096) mod 64;
        0x80 + (cp / 64) mod 64; 0x80 + cp mod 64])%N.

Definition is_high_surrogate (cp : N) : bool := (0xD800 <=? cp)%N && (cp <? 0xDC00)%N.
Definition is_low_surrogate (cp : N) : bool := (0xDC00 <=? cp)%N && (cp <? 0xE000)%N.

(** The code point of a [\u] escape whose four digits gave [cp], and the
    input after it: a surrogate pair is one code point, a lone surrogate
    the replacement character. *)
Definition unicode_escape (cp : N) (rest : text) : N * text :=
  if is_high_surrogate cp then
    match rest with
    | b :: "u"%char :: rest' =>
        match hex4 rest' with
        | Some (lo, rest'') =>
            if Ascii.eqb b backslash && is_low_surrogate lo
            then (0x10000 + (cp - 0xD800) * 1024 + (lo - 0xDC00), rest'')%N
            else (0xFFFD%N, rest)
        | None => (0xFFFD%N, rest)
        end
    | _ => (0xFFFD%N, rest)
    end
  else if is_low_surrogate cp then (0xFFFD%N, rest)
  else (cp, rest).

(** The body of a string literal after its opening quote: the bytes of the
    string and the input after the closing quote. *)
Fixpoint parse_string_body (fuel : nat) (acc : text) (s : text)
    : option (string * text) :=
  match fuel with
  | O => None
  | S fuel' =>
      match s with
      | [] => None
      | a :: rest =>
          if Ascii.eqb a quote then Some (string_of_list_ascii (reverse acc), rest)
          else if Ascii.eqb a backslash then
            match rest with
            | "u"%char :: rest' =>
                match hex4 rest' with
                | Some (cp, rest'') =>
                    let (cp', rest3) := unicode_escape cp rest'' in
                    parse_string_body fuel' (reverse (utf8 cp') ++ acc) rest3
                | None => None
                end
            | e :: rest' =>
                let simple (c : ascii) := parse_string_body fuel' (c :: acc) rest' in
                if Ascii.eqb e quote then simple quote
                else if Ascii.eqb e backslash then simple backslash
                else
                  match e with
                  | "/"%char => simple "/"%char
                  | "b"%char => simple "008"%char
                  | "f"%char => simple "012"%char
                  | "n"%char => simple "010"%char
                  | "r"%char => simple "013"%char
                  | "t"%char => simple "009"%char
                  | _ => None
                  end
            | [] => None
            end
          else if (code a <? 32)%N then None
          else parse_string_body fuel' (a :: acc) rest
      end
  end.

Definition parse_string (s : text) : option (string * text) :=
  parse_string_body (length s) [] s.

Fixpoint span_digits (s : text) : text * text :=
  match s with
  | a :: s' =>
      if is_digit a then let (ds, rest) := span_digits s' in (a :: ds, rest)
      else ([], s)
  | [] => ([], [])
  end.

(** A number literal: [-]? int [. digits]? [e [+-]? digits]?, where int has
    no leading zero. *)
Definition parse_number (s : text) : option (string * text) :=
  let (sign, s1) :=
    match s with
    | "-"%char :: t => (["-"%char], t)
    | _ => ([], s)
    end in
  let (int, s2) := span_digits s1 in
  match int with
  | [] => None
  | "0"%char :: _ :: _ => None
  | _ =>
      let frac :=
        match s2 with
        | "."%char :: t =>
            let (ds, rest) := span_digits t in
            match ds with
            | [] => None
            | _ => Some ("."%char :: ds, rest)
            end
        | _ => Some ([], s2)
        end in
      match frac with
      | None => None
      | Some (f, s3) =>
          let exp :=
            match s3 with
            | e :: t =>
                if Ascii.eqb e "e"%char || Ascii.eqb e "E"%char then
                  let (esign, t') :=
                    match t with
                    | "+"%char :: u => (["+"%char], u)
                    | "-"%char :: u => (["-"%char], u)
                    | _ => ([], t)
                    end in
                  let (ds, rest) := span_digits t' in
                  match ds with
                  | [] => None
                  | _ => Some (e :: esign ++ ds, rest)
                  end
                else Some ([], s3)
            | [] => Some ([], s3)
            end in
          match exp with
          | None => None
          | Some (x, s4) => Some (string_of_list_ascii (sign ++ int ++ f ++ x), s4)
          end
      end
  end.

Fixpoint parse_value (fuel : nat) (s : text) {struct fuel} : option (json * text) :=
  match fuel with
  | O => None
  | S fuel' =>
      match skip_ws s with
      | "n"%char :: "u"%char :: "l"%char :: "l"%char :: rest => Some (JNull, rest)
      | "t"%char :: "r"%char :: "u"%char :: "e"%char :: rest => Some (JBool true, rest)
      | "f"%char :: "a"%char :: "l"%char :: "s"%char :: "e"%char :: rest =>
          Some (JBool false, rest)
      | "["%char :: rest =>
          match skip_ws rest with
          | "]"%char :: rest' => Some (JArray [], rest')
          | _ =>
              match parse_items fuel' rest with
              | Some (items, rest') => Some (JArray items, rest')
              | None => None
              end
          end
      | "{"%char :: rest =>
          match skip_ws rest with
          | "}"%char :: rest' => Some (JObject [], rest')
          | _ =>
              match parse_members fuel' rest with
              | Some (members, rest') => Some (JObject members, rest')
              | None => None
              end
          end
      | a :: rest =>
          if Ascii.eqb a quote then
            match parse_string rest with
            | Some (str, rest') => Some (JString str, rest')
            | None => None
            end
          else
            match parse_number (a :: rest) with
            | Some (lit, rest') => Some (JNumber lit, rest')
            | None => None
            end
      | [] => None
      end
  end
with parse_items (fuel : nat) (s : text) {struct fuel} : option (list json * text) :=
  match fuel with
  | O => None
  | S fuel' =>
      match parse_value fuel' s with
      | Some (v, rest) =>
          match skip_ws rest with
          | ","%char :: rest' =>
              match parse_items fuel' rest' with
              | Some (vs, rest'') => Some (v :: vs, rest'')
              | None => None
              end
          | "]"%char :: rest' => Some ([v], rest')
          | _ => None
          end
      | None => None
      end
  end
with parse_members (fuel : nat) (s : text) {struct fuel}
    : option (list (string * json) * text) :=
  match fuel with
  | O => None
  | S fuel' =>
      match skip_ws s with
      | a :: rest =>
          if Ascii.eqb a quote then
            match parse_string rest with
            | Some (k, rest1) =>
                match skip_ws rest1 with
                | ":"%char :: rest2 =>
                    match parse_value fuel' rest2 with
                    | Some (v, rest3) =>
                        match skip_ws rest3 with
                        | ","%char :: rest4 =>
                            match parse_members fuel' rest4 with
                            | Some (ms, rest5) => Some ((k, v) :: ms, rest5)
                            | None => None
                            end
                        | "}"%char :: rest4 => Some ([(k, v)], rest4)
                        | _ => None
                        end
                    | None => None
                    end
                | _ => None
                end
            | None => None
            end
          else None
      | [] => None
      end
  end.

(** The tree of a JSON text, [None] on a syntax error. *)
Definition parse (data : text) : option json :=
  match parse_value (2 * length data + 2) data with
  | Some (v, rest) =>
      match skip_ws rest with
      | [] => Some v
      | _ => None
      end
  | None => None
  end.

(** *** Storing a tree in the fields *)

Definition lower (a : ascii) : ascii :=
  if ((65 <=? code a) && (code a <=? 90))%N then ascii_of_N (code a + 32) else a.

Definition fold_name (k : string) : string :=
  string_of_list_ascii (map lower (list_ascii_of_string k)).

(** The values of the members that name the field [name], in order. *)
Definition values_for (name : string) (members : list (string * json)) : list json :=
  omap (fun kv => if String.eqb (fold_name kv.1) name then Some kv.2 else None)
    members.

Definition kind_of (v : json) : string :=
  match v with
  | JNull => "null"
  | JBool _ => "bool"
  | JNumber _ => "number"
  | JString _ => "string"
  | JArray _ => "array"
  | JObject _ => "object"
  end.

Definition type_error (v : json) (field : string) : error :=
  ErrNew ("json: cannot unmarshal " ++ kind_of v ++ " into Go struct field " ++ field).

Definition into_string (cur : string) (v : json) : string :=
  match v with
  | JString s => s
  | _ => cur
  end.

Definition into_string_ptr (cur : option string) (v : json) : option string :=
  match v with
  | JString s => Some s
  | JNull => None
  | _ => cur
  end.

Definition into_number_ptr (cur : option string) (v : json) : option string :=
  match v with
  | JNumber lit => Some lit
  | JNull => None
  | _ => cur
  end.

(** The value of an integer literal in the int64 range. *)
Definition int_of_literal (lit : string) : option Z :=
  let s := list_ascii_of_string lit in
  let (neg, ds) :=
    match s with
    | "-"%char :: t => (true, t)
    | _ => (false, s)
    end in
  if forallb is_digit ds && negb (Regexp.nilb ds) then
    let v := Fmt.scan_digits 0 ds in
    let v' := if neg then (- v)%Z else v in
    if ((Fmt.min_int64 <=? v') && (v' <=? Fmt.max_int64))%Z then Some v' else None
  else None.

Definition into_int_ptr (cur : option Z) (v : json) : option Z :=
  match v with
  | JNumber lit =>
      match int_of_literal lit with
      | Some z => Some z
      | None => cur
      end
  | JNull => None
  | _ => cur
  end.

Definition into_strings (cur : list string) (v : json) : list string :=
  match v with
  | JArray items => into_string "" <$> items
  | JNull => []
  | _ => cur
  end.

Definition into_map (cur : gmap string json) (v : json) : gmap string json :=
  match v with
  | JObject members => foldl (fun m kv => <[kv.1 := kv.2]> m) cur members
  | JNull => ∅
  | _ => cur
  end.

Definition into_string_map (cur : gmap string string) (v : json)
    : gmap string string :=
  match v with
  | JObject members => foldl (fun m kv => <[kv.1 := into_string "" kv.2]> m) cur members
  | JNull => ∅
  | _ => cur
  end.

Definition zero_metrics : PredictionMetrics :=
  {| PredictTime := None; TotalTime := None; InputTokenCount := None;
     OutputTokenCount := None; TimeToFirstToken := None;
     TokensPerSecond := None |}.

Definition into_metrics (cur : option PredictionMetrics) (v : json)
    : option PredictionMetrics :=
  match v with
  | JObject members =>
      let m := default zero_metrics cur in
      let field {A : Type} (into : A -> json -> A) (name : string) (old : A) : A :=
        foldl into old (values_for name members) in
      Some
        {| PredictTime := field into_number_ptr "predict_time" (PredictTime m);
           TotalTime := field into_number_ptr "total_time" (TotalTime m);
           InputTokenCount :=
             field into_int_ptr "input_token_count" (InputTokenCount m);
           OutputTokenCount :=
             field into_int_ptr "output_token_count" (OutputTokenCount m);
           TimeToFirstToken :=
             field into_number_ptr "time_to_first_token" (TimeToFirstToken m);
           TokensPerSecond :=
             field into_number_ptr "tokens_per_second" (TokensPerSecond m) |}
  | JNull => None
  | _ => cur
  end.

Definition decode_fields (members : list (string * json)) (a : Alias) : Alias :=
  let field {A : Type} (into : A -> json -> A) (name : string) (old : A) : A :=
    foldl into old (values_for name members) in
  {| ID := field into_string "id" (ID a);
     Status_ := field into_string "status" (Status_ a);
     Model := field into_string "model" (Model a);
     Version := field into_string "version" (Version a);
     Input := field into_map "input" (Input a);
     Output := field (fun _ v => v) "output" (Output a);
     Source_ := field into_string "source" (Source_ a);
     Error := field (fun _ v => v) "error" (Error a);
     Logs := field into_string_ptr "logs" (Logs a);
     Metrics := field into_metrics "metrics" (Metrics a);
     Webhook_ := field into_string_ptr "webhook" (Webhook_ a);
     WebhookEventsFilter :=
       field into_strings "webhook_events_filter" (WebhookEventsFilter a);
     URLs := field into_string_map "urls" (URLs a);
     CreatedAt := field into_string "created_at" (CreatedAt a);
     StartedAt := field into_string_ptr "started_at" (StartedAt a);
     CompletedAt := field into_string_ptr "completed_at" (CompletedAt a) |}.

(** The kinds of value a field takes besides [null]; [None] for a name that
    is no field, or a field that takes anything. *)
Inductive shape : Type :=
| SString
| SStrings
| SStringMap
| SObject
| SMetrics.

Definition shape_of (name : string) : option shape :=
  if existsb (String.eqb name)
       ["id"; "status"; "model"; "version"; "source"; "logs"; "webhook";
        "created_at"; "started_at"; "completed_at"]
  then Some SString
  else if String.eqb name "webhook_events_filter" then Some SStrings
  else if String.eqb name "urls" then Some SStringMap
  else if String.eqb name "input" then Some SObject
  else if String.eqb name "metrics" then Some SMetrics
  else None.

Definition first_error (errs : list (option error)) : option error :=
  head (omap id errs).

Definition string_error (field : string) (v : json) : option error :=
  match v with
  | JString _ | JNull => None
  | _ => Some (type_error v field)
  end.

Definition metric_error (kv : string * json) : option error :=
  let name := fold_name kv.1 in
  if existsb (String.eqb name)
       ["predict_time"; "total_time"; "time_to_first_token"; "tokens_per_second"]
  then
    match kv.2 with
    | JNumber _ | JNull => None
    | v => Some (type_error v name)
    end
  else if existsb (String.eqb name) ["input_token_count"; "output_token_count"]
  then
    match kv.2 with
    | JNull => None
    | JNumber lit =>
        match int_of_literal lit with
        | Some _ => None
        | None => Some (type_error kv.2 name)
        end
    | v => Some (type_error v name)
    end
  else None.

Definition member_error (kv : string * json) : option error :=
  let name := fold_name kv.1 in
  match shape_of name, kv.2 with
  | None, _ => None
  | Some _, JNull => None
  | Some SString, v => string_error name v
  | Some SStrings, JArray items => first_error (string_error name <$> items)
  | Some SStringMap, JObject members =>
      first_error ((fun m => string_error name m.2) <$> members)
  | Some SObject, JObject _ => None
  | Some SMetrics, JObject members => first_error (metric_error <$> members)
  | Some _, v => Some (type_error v name)
  end.

Definition Unmarshal : decoder :=
  fun data a =>
    match parse data with
    | None => (a, Some (ErrNew "json: syntax error"))
    | Some JNull => (a, None)
    | Some (JObject members) =>
        (decode_fields members a, first_error (member_error <$> members))
    | Some v => (a, Some (type_error v "Prediction"))
    end.

End Json.

(** The text of [s] with every apostrophe read as a double quote, to write
    JSON payloads. *)
Definition json_text (s : string) : text :=
  map (fun a => if Ascii.eqb a "'"%char then Json.quote else a) (bytes_of s).

(** ** Descriptions used by the properties *)

(** The input map holds no nil [*File]: the loop over [input] does not
    panic. *)
Definition no_nil_file (input : option loc) (h : heap) : Prop :=
  forall l k, input = Some l -> heap_get h l !! k <> Some (VFile None).

(** What the loop over [input] makes of a value. *)
Definition file_to_url (v : value) : value :=
  match v with
  | VFile (Some file) => VString (default "" (File.URLs file !! "get"))
  | _ => v
  end.

(** One step of the loop over [input], on the map itself. *)
Definition convert_step (m : gmap string value) (entry : string * value)
    : gmap string value :=
  match entry.2 with
  | VFile (Some file) =>
      <[entry.1 := VString (default "" (File.URLs file !! "get"))]> m
  | _ => m
  end.

(** The heap after the loop over [input]: the map of [input] with every
    value rewritten, in place. *)
Definition rewrite_files (input : option loc) (h : heap) : heap :=
  match input with
  | None => h
  | Some l =>
      match h !! l with
      | Some m => <[l := file_to_url <$> m]> h
      | None => h
      end
  end.

(** What lines 119 to 130 store in a payload map [m]. *)
Definition fill_payload (m : gmap string value) (input : option loc)
    (webhook : option Webhook.t) (stream : bool) : gmap string value :=
  let m := <["input" := VMap input]> m in
  let m :=
    match webhook with
    | Some w =>
        let m := <["webhook" := VString (Webhook.URL w)]> m in
        if (0 <? length (Webhook.Events w))%nat
        then <["webhook_events_filter" := VEvents (Webhook.Events w)]> m
        else m
    | None => m
    end in
  if stream then <["stream" := VBool true]> m else m.

(** What the request builder returns once the payload is serialized to
    [body] or failed to (lines 132 to 146). *)
Definition build_outcome (r : Client) (ctx : Context) (path : string)
    (body : result json) : result Request :=
  match body with
  | Err e => Err (ErrWrap "failed to marshal request body" e)
  | Panic msg => Panic msg
  | Ok bodyBuffer =>
      match newRequest r ctx "POST" path bodyBuffer with
      | Err e => Err (ErrWrap "failed to create prediction request" e)
      | Panic msg => Panic msg
      | Ok req => Ok req
      end
  end.

(** What [CreatePrediction] returns for the outcome of the request builder
    (lines 163 to 173). *)
Definition create_outcome (r : Client) (req : result Request) : result Prediction :=
  match req with
  | Err e => Err e
  | Panic msg => Panic msg
  | Ok req =>
      match do r req zero_Prediction with
      | (_, Some e) => Err (ErrWrap "failed to create prediction" e)
      | (prediction, None) => Ok prediction
      end
  end.

(** ** Example values *)

(** Modelled from the spec: [ParseIdentifier] is declared outside
    [prediction.go].  It returns a structure with an owner, a name and an
    optional version and fails on a malformed identifier; "owner/name"
    parses without a version and "abc123" does not parse.  The syntax taken
    here is owner/name with an optional :version. *)
Definition ParseIdentifier_model : parser :=
  fun identifier =>
    let invalid := Err (ErrNew "invalid identifier") in
    match Strings.Split (bytes_of identifier) "/"%char with
    | [owner; rest] =>
        match Strings.Split rest ":"%char with
        | [name] =>
            Ok {| Identifier.Owner := string_of_list_ascii owner;
                  Identifier.Name := string_of_list_ascii name;
                  Identifier.Version := None |}
        | [name; version] =>
            Ok {| Identifier.Owner := string_of_list_ascii owner;
                  Identifier.Name := string_of_list_ascii name;
                  Identifier.Version := Some (string_of_list_ascii version) |}
        | _ => invalid
        end
    | _ => invalid
    end.

(** A response of the server. *)
Definition example_payload : text :=
  json_text
    "{'id':'p1','status':'processing','version':'v1','input':{'prompt':'a cat'},'logs':'10%|#   |5/50\n20%|##  |10/50\n','created_at':'2024-01-01T00:00:00Z'}".

(** A payload with a value of the wrong kind. *)
Definition bad_payload : text := json_text "{'id':5}".

(** A client whose server answers every request with [example_payload]. *)
Definition example_client : Client :=
  {| newRequest := fun _ method path body =>
       Ok {| req_method := method;
             req_url := "https://api.replicate.com/v1" ++ path;
             req_body := body |};
     do := fun _ out => UnmarshalJSON Json.Unmarshal out example_payload;
     fetch_Prediction := fun _ _ _ _ out =>
       UnmarshalJSON Json.Unmarshal out example_payload;
     fetch_Page := fun _ _ _ _ out =>
       ({| Previous := None; Next := None;
           Results :=
             [(UnmarshalJSON Json.Unmarshal zero_Prediction example_payload).1] |},
        None) |}.

(** A client whose server reports what it was asked: the prediction it
    answers with has the URL of the request as its model and the version
    of the body as its version. *)
Definition spy_client : Client :=
  let answer (req : Request) : Prediction :=
    {| exported :=
         {| ID := "p1"; Status_ := "starting"; Model := req_url req;
            Version :=
              match json_get "version" (req_body req) with
              | Some (JString v) => v
              | _ => ""
              end;
            Input := ∅; Output := JNull; Source_ := SourceAPI; Error := JNull;
            Logs := None; Metrics := None; Webhook_ := None;
            WebhookEventsFilter := []; URLs := ∅; CreatedAt := "";
            StartedAt := None; CompletedAt := None |};
       rawJSON := [] |} in
  {| newRequest := newRequest example_client;
     do := fun req _ => (answer req, None);
     fetch_Prediction := fetch_Prediction example_client;
     fetch_Page := fetch_Page example_client |}.

(** A client whose transport fails. *)
Definition failing_client : Client :=
  let refused := Some (ErrNew "connection refused") in
  {| newRequest := newRequest example_client;
     do := fun _ out => (out, refused);
     fetch_Prediction := fun _ _ _ _ out => (out, refused);
     fetch_Page := fun _ _ _ _ out => (out, refused) |}.

Definition example_file : File.t :=
  {| File.URLs := <["get" := "https://x/y"]> ∅ |}.

(** A heap with one input map, at location 1. *)
Definition example_heap : heap :=
  <[1%positive := <["image" := VFile (Some example_file)]>
                    (<["prompt" := VString "a cat"]> ∅)]> ∅.

Definition example_webhook : Webhook.t :=
  {| Webhook.URL := "https://cb"; Webhook.Events := [] |}.


(** A prediction as decoded from a response that carries only [logs]. *)
Definition prediction_with_logs (logs : string) : Prediction :=
  {| exported :=
       {| ID := ""; Status_ := ""; Model := ""; Version := ""; Input := ∅;
          Output := JNull; Source_ := ""; Error := JNull; Logs := Some logs;
          Metrics := None; Webhook_ := None; WebhookEventsFilter := [];
          URLs := ∅; CreatedAt := ""; StartedAt := None;
          CompletedAt := None |};
     rawJSON := [] |}.

(** Two progress lines followed by a line that is none. *)
Definition example_logs : string :=
  "10%|#   |5/50
  20% |##  | 10/50
not a progress line".

(** A heap whose input map, at location 1, holds a nil [*File]. *)
Definition nil_file_heap : heap :=
  <[1%positive := <["image" := VFile None]> ∅]> ∅.

(** A heap whose input map holds a value that has no JSON encoding. *)
Definition func_heap : heap :=
  <[1%positive := <["callback" := VFunc]> ∅]> ∅.

(** A heap whose input map is empty. *)
Definition empty_input_heap : heap := <[1%positive := ∅]> ∅.

(** The example heap and a second map of the caller's, at location 2. *)
Definition two_map_heap : heap :=
  <[2%positive := <["seed" := VInt 7]> ∅]> example_heap.

(** * Properties *)

(** ** The matcher against the declarative semantics *)

Section Matcher.
Import Regexp.

Lemma nilb_app (b : bool) (w1 w2 : text) :
  b && nilb (w1 ++ w2) = (b && nilb w1) && nilb w2.
Proof. destruct w1, b; simpl; try reflexivity. Qed.

Lemma nilb_false (w : text) : w <> [] -> nilb w = false.
Proof. destruct w; [congruence | reflexivity]. Qed.

Lemma take_consumed (w s' : text) :
  take (length (w ++ s') - length s') (w ++ s') = w.
Proof.
  rewrite length_app.
  replace (length w + length s' - length s')%nat with (length w) by lia.
  apply take_app_length.
Qed.

Lemma orelse_Some (x y : option caps) (res : caps) :
  orelse x y = Some res -> x = Some res \/ (x = None /\ y = Some res).
Proof. destruct x; simpl; intros H; [left | right]; auto. Qed.

Lemma star_loop_sound (g : bool) (r : regex) :
  sound_at r (rmatch r) ->
  forall n, sound_at (Star g r) (fun k => star_loop g (rmatch r) k n).
Proof.
  intros IH n. induction n as [|n IHn]; intros k b s c res H; simpl in H.
  - exists [], s, c. rewrite andb_true_r. repeat split; auto. constructor.
  - assert (Hcase :
      rmatch r (fun b' s' c' =>
                  if (length s' <? length s)%nat
                  then star_loop g (rmatch r) k n b' s' c' else None) b s c
      = Some res \/ k b s c = Some res).
    { destruct g; apply orelse_Some in H; tauto. }
    destruct Hcase as [Hmore | Hk].
    + apply IH in Hmore as (w1 & s1 & c1 & -> & Hm1 & Hcont).
      destruct (Nat.ltb_spec (length s1) (length (w1 ++ s1))) as [Hlt|];
        [| discriminate].
      assert (Hne : w1 <> []).
      { intros ->. simpl in Hlt. lia. }
      apply IHn in Hcont as (w2 & s2 & c2 & -> & Hm2 & Hk).
      rewrite (nilb_false w1 Hne), andb_false_r in Hm2, Hk. simpl in Hk.
      exists (w1 ++ w2), s2, c2. rewrite <- app_assoc. split; [reflexivity |].
      split; [econstructor; eauto |].
      rewrite nilb_false, andb_false_r; [exact Hk |].
      destruct w1; [congruence | discriminate].
    + exists [], s, c. rewrite andb_true_r. repeat split; auto. constructor.
Qed.

Lemma rmatch_sound (r : regex) : sound_at r (rmatch r).
Proof.
  induction r as [| |cl|r1 IH1 r2 IH2|g r IH|i r IH];
    intros k b s c res H; simpl in H.
  - exists [], s, c. rewrite andb_true_r. repeat split; auto. constructor.
  - destruct b; [| discriminate].
    exists [], s, c. repeat split; auto. constructor.
  - destruct s as [|a s]; [discriminate |].
    destruct (in_class cl a) eqn:Hcl; [| discriminate].
    exists [a], s, c. rewrite andb_false_r. repeat split; auto.
    constructor; exact Hcl.
  - apply IH1 in H as (w1 & s1 & c1 & -> & Hm1 & H).
    apply IH2 in H as (w2 & s2 & c2 & -> & Hm2 & H).
    exists (w1 ++ w2), s2, c2. rewrite <- app_assoc, nilb_app.
    repeat split; auto. econstructor; eauto.
  - exact (star_loop_sound g r IH (S (length s)) k b s c res H).
  - apply IH in H as (w & s' & c' & -> & Hm & H).
    rewrite take_consumed in H.
    exists w, s', (<[i := w]> c'). repeat split; auto. constructor; exact Hm.
Qed.

Lemma orelse_is_Some_l (x y : option caps) : is_Some x -> is_Some (orelse x y).
Proof. intros [v ->]. simpl. eauto. Qed.

Lemma orelse_is_Some_r (x y : option caps) : is_Some y -> is_Some (orelse x y).
Proof. intros [v ->]. destruct x; simpl; eauto. Qed.

Lemma rmatch_complete (r : regex) (b : bool) (w : text) (c c' : caps) :
  Matches r b w c c' -> complete_at r b w c c'.
Proof.
  induction 1 as
    [b c|c|cl a b c Hcl
    |r1 r2 b w1 w2 c c1 c2 _ [IH1 _] _ [IH2 _]
    |g r b c
    |g r b w1 w2 c c1 c2 Hne _ [IH1 _] _ [_ IH2]
    |i r b w c c' _ [IH _]].
  - split; [| discriminate]. intros k s' Hk. simpl in *.
    rewrite andb_true_r in Hk. exact Hk.
  - split; [| discriminate]. intros k s' Hk. exact Hk.
  - split; [| discriminate]. intros k s' Hk. simpl. rewrite Hcl.
    rewrite andb_false_r in Hk. exact Hk.
  - split; [| discriminate]. intros k s' Hk. simpl.
    rewrite <- app_assoc. apply IH1, IH2. rewrite <- nilb_app. exact Hk.
  - assert (Hloop : forall n k s',
      (length s' < n)%nat -> is_Some (k (b && true) s' c) ->
      is_Some (star_loop g (rmatch r) k n b s' c)).
    { intros [|n] k s' Hn Hk; [lia |]. rewrite andb_true_r in Hk. simpl.
      destruct g; [apply orelse_is_Some_r | apply orelse_is_Some_l]; exact Hk. }
    split.
    + intros k s' Hk. apply (Hloop (S (length s')) k s'); [lia | exact Hk].
    + intros g0 r0 [= -> ->]. exact Hloop.
  - assert (Hloop : forall n k s',
      (length ((w1 ++ w2) ++ s') < n)%nat ->
      is_Some (k (b && nilb (w1 ++ w2)) s' c2) ->
      is_Some (star_loop g (rmatch r) k n b ((w1 ++ w2) ++ s') c)).
    { intros [|n] k s' Hn Hk; [lia |]. simpl.
      assert (Hmore : is_Some
        (rmatch r (fun b' s'0 c'0 =>
           if (length s'0 <? length ((w1 ++ w2) ++ s'))%nat
           then star_loop g (rmatch r) k n b' s'0 c'0 else None)
           b ((w1 ++ w2) ++ s') c)).
      { rewrite <- (app_assoc w1). apply IH1.
        rewrite (nilb_false w1 Hne), andb_false_r.
        destruct (Nat.ltb_spec (length (w2 ++ s')) (length (w1 ++ w2 ++ s')))
          as [_|Hge].
        - apply (IH2 g r eq_refl).
          + rewrite <- app_assoc, !length_app in Hn. rewrite length_app.
            destruct w1; [congruence | simpl in Hn; lia].
          + rewrite nilb_false, andb_false_r in Hk; [exact Hk |].
            destruct w1; [congruence | discriminate].
        - rewrite (length_app w1) in Hge. destruct w1; [congruence |].
          simpl in Hge. lia. }
      destruct g; [apply orelse_is_Some_l | apply orelse_is_Some_r];
        exact Hmore. }
    split.
    + intros k s' Hk.
      apply (Hloop (S (length ((w1 ++ w2) ++ s'))) k s'); [lia | exact Hk].
    + intros g0 r0 [= -> ->]. exact Hloop.
  - split; [| discriminate]. intros k s' Hk. simpl. apply IH.
    rewrite take_consumed. exact Hk.
Qed.

End Matcher.

(** ** The progress pattern *)

Section Pattern.
Import Regexp.

Lemma MustCompile_pattern : MustCompile pattern = progress_re.
Proof. vm_compute. reflexivity. Qed.

Lemma Matches_Empty_inv b w c c' :
  Matches Empty b w c c' -> w = [] /\ c' = c.
Proof. inversion 1; subst; auto. Qed.

Lemma Matches_BeginText_inv b w c c' :
  Matches BeginText b w c c' -> b = true /\ w = [] /\ c' = c.
Proof. inversion 1; subst; auto. Qed.

Lemma Matches_Class_inv cl b w c c' :
  Matches (Class cl) b w c c' ->
  exists a, w = [a] /\ in_class cl a = true /\ c' = c.
Proof. inversion 1; subst; eauto. Qed.

Lemma Matches_Cat_inv r1 r2 b w c c' :
  Matches (Cat r1 r2) b w c c' ->
  exists w1 w2 c1,
    w = w1 ++ w2 /\ Matches r1 b w1 c c1 /\ Matches r2 (b && nilb w1) w2 c1 c'.
Proof. inversion 1; subst; eauto 10. Qed.

Lemma Matches_Group_inv i r b w c c' :
  Matches (Group i r) b w c c' ->
  exists c1, Matches r b w c c1 /\ c' = <[i := w]> c1.
Proof. inversion 1; subst; eauto. Qed.

Lemma Matches_Star_Class_inv g cl b w c c' :
  Matches (Star g (Class cl)) b w c c' -> all_in cl w /\ c' = c.
Proof.
  intros H. remember (Star g (Class cl)) as r eqn:Hr.
  induction H; try discriminate.
  - split; [constructor | reflexivity].
  - injection Hr as -> ->.
    apply Matches_Class_inv in H0 as (a & -> & Ha & ->).
    destruct (IHMatches2 eq_refl) as [Hall ->].
    split; [constructor; assumption | reflexivity].
Qed.

Lemma Matches_Star_Class g cl b w c :
  all_in cl w -> Matches (Star g (Class cl)) b w c c.
Proof.
  intros H. revert b. induction H as [|a w Ha _ IH]; intros b.
  - constructor.
  - apply (M_Star_cons g (Class cl) b [a] w c c c); [discriminate | |apply IH].
    constructor; exact Ha.
Qed.

Lemma Matches_Plus_Class g cl b w c :
  all_in cl w -> w <> [] -> Matches (Cat (Class cl) (Star g (Class cl))) b w c c.
Proof.
  intros H Hne. destruct H as [|a w Ha Hw]; [congruence |].
  apply (M_Cat (Class cl) (Star g (Class cl)) b [a] w c c c).
  - constructor; exact Ha.
  - apply Matches_Star_Class; exact Hw.
Qed.

Lemma in_class_Lit a b : in_class (Lit b) a = true -> a = b.
Proof. simpl. intros H. apply Ascii.eqb_eq; exact H. Qed.

Ltac invert_matches :=
  repeat match goal with
    | H : Matches (Cat _ _) _ _ _ _ |- _ =>
        apply Matches_Cat_inv in H as (? & ? & ? & ? & ? & ?)
    | H : Matches Empty _ _ _ _ |- _ =>
        apply Matches_Empty_inv in H as [? ?]
    | H : Matches BeginText _ _ _ _ |- _ =>
        apply Matches_BeginText_inv in H as (? & ? & ?)
    | H : Matches (Star _ (Class _)) _ _ _ _ |- _ =>
        apply Matches_Star_Class_inv in H as [? ?]
    | H : Matches (Class _) _ _ _ _ |- _ =>
        apply Matches_Class_inv in H as (? & ? & ? & ?)
    | H : Matches (Group _ _) _ _ _ _ |- _ =>
        apply Matches_Group_inv in H as (? & ? & ?)
    | H : in_class (Lit _) _ = true |- _ => apply in_class_Lit in H
    end.

Lemma Matches_progress_inv b w c c' :
  Matches progress_re b w c c' ->
  b = true /\
  exists pct cur tot,
    progress_match w pct cur tot
    /\ c' = <[3%nat := tot]> (<[2%nat := cur]> (<[1%nat := pct]> c)).
Proof.
  unfold progress_re. intros H. invert_matches. subst.
  split; [reflexivity |].
  repeat match goal with
    | H : all_in _ _ |- _ => revert H
    | H : in_class _ _ = true |- _ => revert H
    end.
  intros.
  simpl. rewrite ?app_nil_r. rewrite <- ?app_assoc. simpl.
  lazymatch goal with
  | |- exists pct cur tot,
         progress_match
           (?ws1 ++ ?p :: ?ps ++ _ :: ?ws2 ++ _ :: ?d :: ?ds
              ++ _ :: ?ws3 ++ ?c1 :: ?cs ++ _ :: ?t :: ?ts) _ _ _ /\ _ =>
      exists (p :: ps), (c1 :: cs), (t :: ts);
      split; [exists ws1, ws2, (d :: ds), ws3 | reflexivity]
  end.
  split; [reflexivity |].
  repeat split; try assumption; try discriminate;
    constructor; assumption.
Qed.

Lemma Matches_progress w pct cur tot c :
  progress_match w pct cur tot ->
  Matches progress_re true w c
    (<[3%nat := tot]> (<[2%nat := cur]> (<[1%nat := pct]> c))).
Proof.
  intros (ws1 & ws2 & dots & ws3 & -> & H1 & Hp & Hpn & H2 & Hd & Hdn & H3
          & Hc & Hcn & Ht & Htn).
  unfold progress_re.
  pose proof (fun b c => Matches_Star_Class true Space b ws1 c H1) as M1.
  pose proof (fun b c => Matches_Star_Class true Space b ws2 c H2) as M2.
  pose proof (fun b c => Matches_Star_Class true Space b ws3 c H3) as M3.
  pose proof (fun b c => Matches_Plus_Class true Digit b pct c Hp Hpn) as Mp.
  pose proof (fun b c => Matches_Plus_Class true Digit b cur c Hc Hcn) as Mc.
  pose proof (fun b c => Matches_Plus_Class true Digit b tot c Ht Htn) as Mt.
  pose proof (fun b c => Matches_Plus_Class false AnyNotNL b dots c Hd Hdn) as Md.
  assert (Hgroup : forall i b w c,
    Matches (Cat (Class Digit) (Star true (Class Digit))) b w c c ->
    Matches (Group i (Cat (Cat (Class Digit) (Star true (Class Digit))) Empty))
      b w c (<[i := w]> c)).
  { intros i b w c0 Hw. constructor.
    rewrite <- (app_nil_r w). econstructor; [exact Hw | constructor]. }
  assert (Hlit : forall a b c, Matches (Class (Lit a)) b [a] c c).
  { intros a b c0. constructor. simpl. apply Ascii.eqb_refl. }
  change (ws1 ++ pct ++ "%"%char :: ws2 ++ "|"%char :: dots
            ++ "|"%char :: ws3 ++ cur ++ "/"%char :: tot)
    with ([] ++ ws1 ++ pct ++ ["%"%char] ++ ws2 ++ ["|"%char] ++ dots
            ++ ["|"%char] ++ ws3 ++ cur ++ ["/"%char] ++ tot).
  rewrite <- (app_nil_r tot) at 1.
  repeat (econstructor; [solve [eauto | constructor] |]).
  constructor.
Qed.

End Pattern.

(** ** The matcher on the progress pattern *)

Section ProgressMatcher.
Import Regexp.

Lemma search_unfold re b s :
  search re b s =
  match match_here re b s with
  | Some c => Some c
  | None => match s with [] => None | _ :: s' => search re false s' end
  end.
Proof. destruct s; reflexivity. Qed.

Lemma match_here_not_begin s : match_here progress_re false s = None.
Proof. reflexivity. Qed.

Lemma search_not_begin s : search progress_re false s = None.
Proof.
  induction s as [|a s IH]; rewrite search_unfold, match_here_not_begin;
    [reflexivity | exact IH].
Qed.

(** The pattern is anchored: only the start position 0 is tried. *)
Lemma search_begin s : search progress_re true s = match_here progress_re true s.
Proof.
  rewrite search_unfold. destruct (match_here progress_re true s); [reflexivity |].
  destruct s; [reflexivity | apply search_not_begin].
Qed.

Lemma match_here_progress_sound s res :
  match_here progress_re true s = Some res ->
  exists w rest pct cur tot,
    s = w ++ rest /\ progress_match w pct cur tot /\ res = [w; pct; cur; tot].
Proof.
  unfold match_here. intros H.
  apply rmatch_sound in H as (w & s' & c' & -> & Hm & Hk).
  injection Hk as <-. rewrite take_consumed.
  apply Matches_progress_inv in Hm as (_ & pct & cur & tot & Hpm & ->).
  exists w, s', pct, cur, tot. repeat split; auto.
Qed.

Lemma match_here_progress_complete w rest pct cur tot :
  progress_match w pct cur tot ->
  is_Some (match_here progress_re true (w ++ rest)).
Proof.
  intros Hpm. unfold match_here.
  apply (Matches_progress w pct cur tot
           (replicate (S (num_groups progress_re)) [])) in Hpm.
  apply rmatch_complete in Hpm as [Hc _]. apply Hc. eauto.
Qed.

Lemma MatchString_progress s :
  MatchString progress_re s = true <-> matching_line s.
Proof.
  unfold MatchString. rewrite search_begin. split.
  - destruct (match_here progress_re true s) eqn:H; [| discriminate].
    intros _. apply match_here_progress_sound in H
      as (w & rest & pct & cur & tot & -> & Hpm & _).
    exists w, rest, pct, cur, tot. auto.
  - intros (w & rest & pct & cur & tot & -> & Hpm).
    destruct (match_here_progress_complete w rest pct cur tot Hpm) as [c ->].
    reflexivity.
Qed.

(** On a line the pattern matches, the submatches are the match and its
    three groups. *)
Lemma FindStringSubmatch_progress s :
  matching_line s ->
  exists w rest pct cur tot,
    s = w ++ rest /\ progress_match w pct cur tot
    /\ FindStringSubmatch progress_re s = [w; pct; cur; tot].
Proof.
  intros (w & rest & pct & cur & tot & -> & Hpm).
  unfold FindStringSubmatch. rewrite search_begin.
  destruct (match_here_progress_complete w rest pct cur tot Hpm) as [c Hc].
  rewrite Hc. apply match_here_progress_sound in Hc
    as (w' & rest' & pct' & cur' & tot' & Heq & Hpm' & ->).
  exists w', rest', pct', cur', tot'. auto.
Qed.

Lemma FindStringSubmatch_progress_nil s :
  ~ matching_line s -> FindStringSubmatch progress_re s = [].
Proof.
  intros Hn. unfold FindStringSubmatch.
  destruct (search progress_re true s) eqn:H; [| reflexivity].
  exfalso. apply Hn, MatchString_progress. unfold MatchString. rewrite H.
  reflexivity.
Qed.

Lemma FindStringSubmatch_progress_length s :
  length (FindStringSubmatch progress_re s) = 4%nat -> matching_line s.
Proof.
  intros H. apply MatchString_progress. unfold MatchString.
  unfold FindStringSubmatch in H.
  destruct (search progress_re true s); [reflexivity | discriminate].
Qed.

End ProgressMatcher.

(** ** Trimming keeps a match *)

Section Trimming.
Import Regexp Strings.

Lemma strip_unit_space a s :
  in_class Space a = true -> strip_unit space_units (a :: s) = Some s.
Proof.
  destruct a as [[] [] [] [] [] [] [] []]; intros H;
    try discriminate H; reflexivity.
Qed.

Lemma strip_unit_digit a s :
  in_class Digit a = true -> strip_unit space_units (a :: s) = None.
Proof.
  destruct a as [[] [] [] [] [] [] [] []]; intros H;
    try discriminate H; reflexivity.
Qed.

Lemma strip_units_spaces ws d t n :
  all_in Space ws -> in_class Digit d = true -> (length ws < n)%nat ->
  strip_units space_units n (ws ++ d :: t) = d :: t.
Proof.
  intros Hws Hd. revert n.
  induction Hws as [|a ws Ha _ IH]; intros [|n] Hn; simpl in Hn; try lia.
  - simpl app. cbn [strip_units]. rewrite (strip_unit_digit d t Hd). reflexivity.
  - simpl app. cbn [strip_units]. rewrite (strip_unit_space a _ Ha).
    apply IH. lia.
Qed.

Lemma TrimLeftSpace_spaces ws d t :
  all_in Space ws -> in_class Digit d = true ->
  TrimLeftSpace (ws ++ d :: t) = d :: t.
Proof.
  intros Hws Hd. unfold TrimLeftSpace. apply strip_units_spaces; auto.
  rewrite length_app. simpl. lia.
Qed.

Lemma strip_prefix_keeps u Y d Z s' :
  d ∉ u -> strip_prefix u (Y ++ d :: Z) = Some s' ->
  exists Y', s' = Y' ++ d :: Z.
Proof.
  revert Y. induction u as [|a u IH]; intros Y Hd H.
  - injection H as <-. eauto.
  - destruct Y as [|y Y]; simpl in H.
    + destruct (Ascii.eqb_spec a d) as [->|]; [| discriminate].
      exfalso. apply Hd. left.
    + destruct (Ascii.eqb a y); [| discriminate].
      apply IH in H; [exact H |]. intros Hin. apply Hd. right. exact Hin.
Qed.

Lemma strip_unit_keeps units Y d Z s' :
  Forall (fun u => d ∉ u) units ->
  strip_unit units (Y ++ d :: Z) = Some s' ->
  exists Y', s' = Y' ++ d :: Z.
Proof.
  induction 1 as [|u units Hu _ IH]; simpl; [discriminate |].
  destruct (strip_prefix u (Y ++ d :: Z)) eqn:Hp.
  - intros [= <-]. eapply strip_prefix_keeps; eauto.
  - exact IH.
Qed.

Lemma strip_units_keeps units n Y d Z :
  Forall (fun u => d ∉ u) units ->
  exists Y', strip_units units n (Y ++ d :: Z) = Y' ++ d :: Z.
Proof.
  intros Hu. revert Y. induction n as [|n IH]; intros Y; simpl; [eauto |].
  destruct (strip_unit units (Y ++ d :: Z)) eqn:Hs; [| eauto].
  apply strip_unit_keeps in Hs as [Y' ->]; [| exact Hu]. apply IH.
Qed.

(** No byte of a white-space encoding is a digit. *)
Lemma space_units_no_digit d :
  in_class Digit d = true ->
  Forall (fun u => d ∉ u) (map reverse space_units).
Proof.
  intros Hd.
  assert (Hall : forallb (forallb (fun a => negb (in_class Digit a)))
                   (map reverse space_units) = true) by (vm_compute; reflexivity).
  apply Forall_forall. intros u Hu Hin.
  rewrite forallb_forall in Hall. specialize (Hall u).
  rewrite <- list_elem_of_In in Hall. specialize (Hall Hu).
  rewrite forallb_forall in Hall. specialize (Hall d).
  rewrite <- list_elem_of_In in Hall. specialize (Hall Hin).
  rewrite Hd in Hall. discriminate.
Qed.

Lemma TrimRightSpace_keeps X d R :
  in_class Digit d = true ->
  exists R', TrimRightSpace (X ++ d :: R) = X ++ d :: R'.
Proof.
  intros Hd. unfold TrimRightSpace. generalize (length (X ++ d :: R)) as n.
  intros n.
  replace (reverse (X ++ d :: R)) with (reverse R ++ d :: reverse X)
    by (rewrite reverse_app, reverse_cons, <- app_assoc; reflexivity).
  destruct (strip_units_keeps (map reverse space_units)
              n (reverse R) d (reverse X)
              (space_units_no_digit d Hd)) as [Y' ->].
  exists (reverse Y').
  rewrite reverse_app, reverse_cons, reverse_involutive, <- app_assoc.
  reflexivity.
Qed.

Ltac list_norm :=
  repeat (rewrite <- app_assoc || rewrite <- app_comm_cons
          || rewrite app_nil_l).

(** The test on the trimmed line accepts every line the pattern matches. *)
Lemma TrimSpace_matching s : matching_line s -> matching_line (TrimSpace s).
Proof.
  intros (w & rest & pct & cur & tot & -> & Hpm).
  destruct Hpm as (ws1 & ws2 & dots & ws3 & -> & H1 & Hp & Hpn & H2 & Hd & Hdn
                   & H3 & Hc & Hcn & Ht & Htn).
  destruct pct as [|p ps]; [congruence |].
  destruct (exists_last Htn) as (tot0 & d & ->).
  assert (Hdd : in_class Digit d = true).
  { unfold all_in in Ht. rewrite Forall_app, Forall_singleton in Ht. tauto. }
  set (core := ps ++ "%"%char :: ws2 ++ "|"%char :: dots ++ "|"%char :: ws3
                 ++ cur ++ "/"%char :: tot0).
  assert (Hs :
    (ws1 ++ (p :: ps) ++ "%"%char :: ws2 ++ "|"%char :: dots ++ "|"%char :: ws3
       ++ cur ++ "/"%char :: tot0 ++ [d]) ++ rest
    = ws1 ++ p :: core ++ d :: rest).
  { unfold core. list_norm. reflexivity. }
  unfold TrimSpace. rewrite Hs.
  rewrite (TrimLeftSpace_spaces ws1 p); [| exact H1 | inversion Hp; auto].
  destruct (TrimRightSpace_keeps (p :: core) d rest Hdd) as [R' HR].
  simpl in HR. rewrite HR.
  exists ((p :: ps) ++ "%"%char :: ws2 ++ "|"%char :: dots ++ "|"%char :: ws3
            ++ cur ++ "/"%char :: tot0 ++ [d]), R', (p :: ps), cur, (tot0 ++ [d]).
  split.
  - unfold core. list_norm. reflexivity.
  - exists [], ws2, dots, ws3. repeat split; auto. constructor.
Qed.

End Trimming.

(** ** The progress parser *)

Section ProgressParser.
Import Regexp.

Lemma Progress_loop_skip lines n i :
  (i <= n)%nat ->
  (forall j, (i <= j < n)%nat -> ~ matching_line (lines !!! j)) ->
  Progress_loop progress_re lines n = Progress_loop progress_re lines i.
Proof.
  induction n as [|n IH]; intros Hi Hskip.
  - replace i with 0%nat by lia. reflexivity.
  - destruct (decide (i = S n)) as [->|Hne]; [reflexivity |].
    cbn [Progress_loop].
    rewrite (FindStringSubmatch_progress_nil (lines !!! n))
      by (apply Hskip; lia).
    cbn [length Nat.eqb].
    destruct (MatchString progress_re (Strings.TrimSpace (lines !!! n)));
      apply IH; try lia; intros j Hj; apply Hskip; lia.
Qed.

Lemma Progress_loop_hit lines i :
  matching_line (lines !!! i) ->
  Progress_loop progress_re lines (S i)
  = Some (snapshot_of (FindStringSubmatch progress_re (lines !!! i))).
Proof.
  intros Hm. cbn [Progress_loop].
  pose proof (TrimSpace_matching _ Hm) as Ht.
  apply MatchString_progress in Ht. rewrite Ht.
  destruct (FindStringSubmatch_progress _ Hm)
    as (w & rest & pct & cur & tot & _ & _ & ->).
  reflexivity.
Qed.

Lemma Progress_loop_Some lines n snap :
  Progress_loop progress_re lines n = Some snap ->
  exists i, (i < n)%nat /\ matching_line (lines !!! i)
    /\ snap = snapshot_of (FindStringSubmatch progress_re (lines !!! i)).
Proof.
  induction n as [|n IH]; [discriminate |]. cbn [Progress_loop]. intros H.
  assert (Hrec : Progress_loop progress_re lines n = Some snap ->
    exists i, (i < S n)%nat /\ matching_line (lines !!! i)
      /\ snap = snapshot_of (FindStringSubmatch progress_re (lines !!! i))).
  { intros H'. destruct (IH H') as (i & Hi & Hm & ->). exists i.
    repeat split; auto. }
  destruct (MatchString progress_re (Strings.TrimSpace (lines !!! n)));
    [| auto].
  destruct (Nat.eqb_spec (length (FindStringSubmatch progress_re (lines !!! n))) 4)
    as [Hlen|]; [| auto].
  injection H as <-. exists n. split; [lia |]. split; [| reflexivity].
  apply FindStringSubmatch_progress_length, Hlen.
Qed.

(** *** Scanning the groups *)

Lemma skip_space_digit a t n :
  in_class Digit a = true -> Fmt.skip_space (S n) (a :: t) = Some (a :: t).
Proof.
  intros Ha. cbn [Fmt.skip_space].
  rewrite (strip_unit_digit a t Ha).
  destruct a as [[] [] [] [] [] [] [] []]; try discriminate Ha; reflexivity.
Qed.

Lemma scan_sign_digit a t :
  in_class Digit a = true -> Fmt.scan_sign (a :: t) = (false, a :: t).
Proof.
  destruct a as [[] [] [] [] [] [] [] []]; intros Ha; try discriminate Ha;
    reflexivity.
Qed.

Lemma digit_value_nonneg a :
  Fmt.is_digit a = true -> (0 <= Fmt.digit_value a)%Z.
Proof.
  unfold Fmt.is_digit, Fmt.digit_value. intros H.
  apply andb_true_iff in H as [H _]. apply N.leb_le in H. lia.
Qed.

Lemma scan_digits_nonneg s acc :
  (0 <= acc)%Z -> (0 <= Fmt.scan_digits acc s)%Z.
Proof.
  revert acc. induction s as [|a s IH]; intros acc Hacc; simpl; [exact Hacc |].
  destruct (Fmt.is_digit a) eqn:Ha; [| exact Hacc].
  apply IH. pose proof (digit_value_nonneg a Ha). lia.
Qed.

(** A group of digits is scanned to its decimal value when that fits in
    64 bits. *)
Lemma Sscanf_d_digits pct :
  all_in Digit pct -> pct <> [] ->
  (Fmt.scan_digits 0 pct <= Fmt.max_int64)%Z ->
  Fmt.Sscanf_d pct 0 = Fmt.scan_digits 0 pct.
Proof.
  intros Hall Hne Hmax. destruct Hall as [|a t Ha Ht]; [congruence |].
  unfold Fmt.Sscanf_d, Fmt.scan_int. cbn [length].
  rewrite (skip_space_digit a t _ Ha), (scan_sign_digit a t Ha).
  change (Fmt.is_digit a) with (in_class Digit a). rewrite Ha.
  pose proof (scan_digits_nonneg (a :: t) 0 ltac:(lia)) as Hpos.
  destruct (Z.leb_spec Fmt.min_int64 (Fmt.scan_digits 0 (a :: t))) as [_|Hlt].
  - destruct (Z.leb_spec (Fmt.scan_digits 0 (a :: t)) Fmt.max_int64);
      [reflexivity | lia].
  - unfold Fmt.min_int64 in Hlt. lia.
Qed.

(** *** The quotient *)



(** The two examples of the spec: the last matching line wins, leading
    white space is allowed and a last line that does not match is passed
    over. *)
Lemma Progress_examples :
  Progress (prediction_with_logs "10%|█…|5/50
20%|██…|10/50")
  = Some {| Percentage := float64_of_int 20 / float64_of_int 100;
            Current := 10; Total := 50 |}
  /\ Progress (prediction_with_logs "  45% |####|9/20  
not a progress line")
     = Some {| Percentage := float64_of_int 45 / float64_of_int 100;
               Current := 9; Total := 20 |}.
Proof. split; vm_compute; reflexivity. Qed.

(** No line matches: no result. *)
Lemma Progress_no_match (p : Prediction) (logs : string) :
  Logs p = Some logs ->
  (forall l, l ∈ Strings.Split (bytes_of logs) "010"%char ->
             MatchString (MustCompile pattern) l = false) ->
  Progress p = None.
Proof.
  rewrite MustCompile_pattern. intros Hlogs Hno.
  unfold Progress. rewrite Hlogs, MustCompile_pattern.
  destruct (String.eqb logs ""); [reflexivity |].
  destruct (length _ =? 0)%nat; [reflexivity |].
  rewrite (Progress_loop_skip _ _ 0); [reflexivity | lia |].
  intros j Hj Hm. apply MatchString_progress in Hm.
  rewrite Hno in Hm; [discriminate |].
  apply list_elem_of_lookup_total_2. lia.
Qed.

(** A line that starts with a vertical tab passes the test on the trimmed
    line, but the pattern, whose [\s] has no vertical tab, does not match
    the line itself: the loop goes on to the line before. *)
Lemma Progress_vertical_tab :
  let last := "011"%char :: bytes_of "10%|x|1/2" in
  let logs := string_of_list_ascii (bytes_of "5%|x|3/2" ++ "010"%char :: last) in
  MatchString progress_re (Strings.TrimSpace last) = true
  /\ FindStringSubmatch progress_re last = []
  /\ Current <$> Progress (prediction_with_logs logs) = Some 3%Z.
Proof. cbv zeta. repeat apply conj; vm_compute; reflexivity. Qed.






End ProgressParser.

(** ** Serialization *)

Section Serialization.

Lemma assoc_None k (js : list (string * json)) :
  assoc k js = None <-> k ∉ js.*1.
Proof.
  induction js as [|[k' j] js IH]; simpl.
  - split; [intros _; apply not_elem_of_nil | reflexivity].
  - rewrite not_elem_of_cons. destruct (String.eqb_spec k k') as [->|Hne].
    + split; [discriminate | intros [H _]; congruence].
    + rewrite IH. tauto.
Qed.

Lemma assoc_Some k j (js : list (string * json)) :
  NoDup js.*1 -> (k, j) ∈ js -> assoc k js = Some j.
Proof.
  induction js as [|[k' j'] js IH]; simpl; intros Hnd Hin.
  - apply elem_of_nil in Hin. contradiction.
  - apply NoDup_cons in Hnd as [Hk' Hnd].
    apply elem_of_cons in Hin as [[= -> ->]|Hin].
    + rewrite String.eqb_refl. reflexivity.
    + destruct (String.eqb_spec k k') as [->|Hne]; [| auto].
      exfalso. apply Hk'. apply list_elem_of_fmap. exists (k', j). auto.
Qed.

Lemma marshal_members_Ok f kvs js :
  marshal_members f kvs = Ok js ->
  Forall2 (fun kv kj => kv.1 = kj.1 /\ f kv.2 = Ok kj.2) kvs js.
Proof.
  revert js. induction kvs as [|[k v] kvs IH]; simpl; intros js H.
  - injection H as <-. constructor.
  - destruct (f v) as [j| |] eqn:Hf; try discriminate.
    destruct (marshal_members f kvs) as [js'| |]; try discriminate.
    injection H as <-. constructor; [split; auto | apply IH; reflexivity].
Qed.

Lemma marshal_members_mono (f g : value -> result json) kvs js :
  (forall v j, f v = Ok j -> g v = Ok j) ->
  marshal_members f kvs = Ok js -> marshal_members g kvs = Ok js.
Proof.
  intros Hfg. revert js. induction kvs as [|[k v] kvs IH]; simpl; intros js H.
  - exact H.
  - destruct (f v) as [j| |] eqn:Hf; try discriminate.
    rewrite (Hfg _ _ Hf).
    destruct (marshal_members f kvs) as [js'| |]; try discriminate.
    rewrite (IH js' eq_refl). exact H.
Qed.

Lemma sorted_entries_elem {A : Type} (m : gmap string A) k v :
  (k, v) ∈ sorted_entries m <-> m !! k = Some v.
Proof.
  unfold sorted_entries. rewrite merge_sort_Permutation.
  apply elem_of_map_to_list.
Qed.

Lemma sorted_entries_NoDup {A : Type} (m : gmap string A) :
  NoDup (sorted_entries m).*1.
Proof.
  unfold sorted_entries. rewrite merge_sort_Permutation.
  apply NoDup_fst_map_to_list.
Qed.

(** Induction on values, through the elements of a slice. *)
Lemma value_nested_ind (P : value -> Prop) :
  P VNil -> (forall b, P (VBool b)) -> (forall z, P (VInt z)) ->
  (forall s, P (VString s)) ->
  (forall vs, Forall P vs -> P (VSlice vs)) ->
  (forall es, P (VEvents es)) -> (forall f, P (VFile f)) ->
  (forall m, P (VMap m)) -> P VFunc ->
  forall v, P v.
Proof.
  intros HNil HBool HInt HString HSlice HEvents HFile HMap HFunc.
  fix IH 1.
  intros [ |b|z|s|vs|es|f|m| ];
    [exact HNil | apply HBool | apply HInt | apply HString |
    | apply HEvents | apply HFile | apply HMap | exact HFunc].
  apply HSlice.
  refine ((fix all (vs : list value) : Forall P vs :=
             match vs with
             | [] => List.Forall_nil P
             | v :: vs' => @List.Forall_cons _ P v vs' (IH v) (all vs')
             end) vs).
Qed.

Lemma marshal_with_mono (e1 e2 : loc -> result json) :
  (forall l j, e1 l = Ok j -> e2 l = Ok j) ->
  forall v j, marshal_with e1 v = Ok j -> marshal_with e2 v = Ok j.
Proof.
  intros He v. induction v as [ |b|z|s|vs IH|es|f|m| ] using value_nested_ind;
    intros j H; try exact H.
  - simpl in H |- *.
    assert (Hitems : forall js,
      marshal_items (marshal_with e1) vs = Ok js ->
      marshal_items (marshal_with e2) vs = Ok js).
    { clear H. induction IH as [|v vs Hv _ IHvs]; intros js Hjs; [exact Hjs |].
      simpl in Hjs |- *.
      destruct (marshal_with e1 v) as [j0| |]; try discriminate.
      rewrite (Hv j0 eq_refl).
      destruct (marshal_items (marshal_with e1) vs) as [js0| |];
        try discriminate.
      rewrite (IHvs _ eq_refl). exact Hjs. }
    destruct (marshal_items (marshal_with e1) vs) as [js0| |];
      try discriminate.
    rewrite (Hitems _ eq_refl). exact H.
  - destruct m as [l|]; [| exact H]. simpl in H |- *. apply He, H.
Qed.

Lemma Marshal_fuel_mono n h v j :
  Marshal_fuel n h v = Ok j -> Marshal_fuel (S n) h v = Ok j.
Proof.
  revert v j. induction n as [|n IH]; intros v j.
  - apply marshal_with_mono. intros l j0 H. discriminate H.
  - apply (marshal_with_mono
             (fun l => result_map JObject
                         (marshal_members (Marshal_fuel n h)
                            (sorted_entries (heap_get h l))))
             (fun l => result_map JObject
                         (marshal_members (Marshal_fuel (S n) h)
                            (sorted_entries (heap_get h l))))).
    intros l j0 H.
    destruct (marshal_members (Marshal_fuel n h) (sorted_entries (heap_get h l)))
      as [js| |] eqn:Hm; try discriminate H.
    rewrite (marshal_members_mono _ (Marshal_fuel (S n) h) _ _ IH Hm).
    exact H.
Qed.

(** The body of a serialized map: an object that has, for every key of
    the map, the serialized value, and no other member. *)
Lemma Marshal_map h d body :
  Marshal h (VMap (Some d)) = Ok body ->
  exists members,
    body = JObject members
    /\ (forall k v, heap_get h d !! k = Some v ->
        exists j, assoc k members = Some j /\ Marshal h v = Ok j)
    /\ (forall k, heap_get h d !! k = None -> assoc k members = None).
Proof.
  unfold Marshal. intros H.
  change (Marshal_fuel (S (size h)) h (VMap (Some d)))
    with (result_map JObject
            (marshal_members (Marshal_fuel (size h) h)
               (sorted_entries (heap_get h d)))) in H.
  destruct (marshal_members (Marshal_fuel (size h) h)
              (sorted_entries (heap_get h d))) as [members| |] eqn:Hm;
    try discriminate H.
  injection H as <-. exists members. split; [reflexivity |].
  apply marshal_members_Ok in Hm.
  assert (Hkeys : (sorted_entries (heap_get h d)).*1 = members.*1).
  { clear -Hm. induction Hm as [|[k v] [k' j] kvs js [Hk _] _ IH]; csimpl in *;
      [reflexivity | congruence]. }
  split.
  - intros k v Hkv. apply sorted_entries_elem in Hkv.
    assert (Hj : exists j, (k, j) ∈ members /\ Marshal_fuel (size h) h v = Ok j).
    { clear -Hm Hkv. induction Hm as [|[k0 v0] [k' j] kvs js [Hk Hf] _ IH];
        simpl in *.
      - apply elem_of_nil in Hkv. contradiction.
      - apply elem_of_cons in Hkv as [[= -> ->]|Hkv].
        + exists j. subst k'. split; [left | exact Hf].
        + destruct (IH Hkv) as (j0 & Hin & Hf0). exists j0.
          split; [right; exact Hin | exact Hf0]. }
    destruct Hj as (j & Hin & Hf). exists j. split.
    + apply assoc_Some; [| exact Hin]. rewrite <- Hkeys.
      apply sorted_entries_NoDup.
    + apply Marshal_fuel_mono, Hf.
  - intros k Hk. apply assoc_None. rewrite <- Hkeys. intros Hin.
    apply list_elem_of_fmap in Hin as ([k' v] & -> & Hin).
    apply sorted_entries_elem in Hin. simpl in Hk. congruence.
Qed.

End Serialization.

(** ** The request builder *)

Section RequestBuilder.

Lemma heap_get_insert_eq (h : heap) l m : heap_get (<[l := m]> h) l = m.
Proof. unfold heap_get. rewrite lookup_insert_eq. reflexivity. Qed.

Lemma heap_get_insert_ne (h : heap) l l' m :
  l <> l' -> heap_get (<[l := m]> h) l' = heap_get h l'.
Proof. intros Hne. unfold heap_get. rewrite lookup_insert_ne by exact Hne. reflexivity. Qed.

Lemma heap_store_insert d k v m (h : heap) :
  heap_store d k v (<[d := m]> h) = <[d := <[k := v]> m]> h.
Proof. unfold heap_store. rewrite heap_get_insert_eq, insert_insert_eq. reflexivity. Qed.

Lemma foldl_convert_entry_None l kvs :
  foldl (convert_entry l) None kvs = None.
Proof. induction kvs as [|kv kvs IH]; [reflexivity | exact IH]. Qed.

Lemma foldl_convert_entry_nil l kvs acc k :
  (k, VFile None) ∈ kvs -> foldl (convert_entry l) acc kvs = None.
Proof.
  revert acc. induction kvs as [|kv kvs IH]; intros acc Hin.
  - apply elem_of_nil in Hin. contradiction.
  - simpl. apply elem_of_cons in Hin as [<-|Hin]; [| apply IH, Hin].
    destruct acc as [h|]; apply foldl_convert_entry_None.
Qed.

Lemma foldl_convert_entry l kvs m (h0 : heap) :
  (forall k, (k, VFile None) ∉ kvs) ->
  foldl (convert_entry l) (Some (<[l := m]> h0)) kvs
  = Some (<[l := foldl convert_step m kvs]> h0).
Proof.
  revert m. induction kvs as [|[k v] kvs IH]; intros m Hnil; [reflexivity |].
  assert (Hrest : forall k', (k', VFile None) ∉ kvs).
  { intros k' Hin. apply (Hnil k'). right. exact Hin. }
  simpl. unfold convert_step at 2. simpl.
  destruct v as [ | | | | | |[file|]| | ]; try (apply IH, Hrest).
  - rewrite heap_store_insert. apply IH, Hrest.
  - exfalso. apply (Hnil k). left.
Qed.

Lemma foldl_convert_step kvs (m : gmap string value) k :
  NoDup kvs.*1 ->
  (forall k' v, (k', v) ∈ kvs -> m !! k' = Some v) ->
  foldl convert_step m kvs !! k
  = if decide (k ∈ kvs.*1) then file_to_url <$> m !! k else m !! k.
Proof.
  revert m. induction kvs as [|[k0 v0] kvs IH]; intros m Hnd Hm.
  - destruct (decide (k ∈ [].*1)) as [Hin|]; [| reflexivity].
    apply elem_of_nil in Hin. contradiction.
  - csimpl in *. apply NoDup_cons in Hnd as [Hk0 Hnd].
    assert (Hv0 : m !! k0 = Some v0) by (apply Hm; left).
    assert (Hm1 : forall k' v, (k', v) ∈ kvs -> convert_step m (k0, v0) !! k' = Some v).
    { intros k' v Hin.
      assert (k0 <> k').
      { intros ->. apply Hk0, list_elem_of_fmap. exists (k', v). auto. }
      unfold convert_step. simpl.
      destruct v0 as [ | | | | | |[file|]| | ]; rewrite ?lookup_insert_ne by done;
        apply Hm; right; exact Hin. }
    rewrite (IH _ Hnd Hm1).
    destruct (decide (k = k0)) as [->|Hne].
    + rewrite decide_False by exact Hk0.
      rewrite decide_True by left. rewrite Hv0.
      unfold convert_step. simpl.
      destruct v0 as [ | | | | | |[file|]| | ]; rewrite ?lookup_insert_eq;
        try exact Hv0; reflexivity.
    + assert (Hsame : convert_step m (k0, v0) !! k = m !! k).
      { unfold convert_step. simpl.
        destruct v0 as [ | | | | | |[file|]| | ];
          rewrite ?lookup_insert_ne by done; reflexivity. }
      rewrite Hsame. destruct (decide (k ∈ kvs.*1)) as [Hin|Hnin].
      * rewrite decide_True by (right; exact Hin). reflexivity.
      * rewrite decide_False; [reflexivity |].
        intros Hin. apply elem_of_cons in Hin as [?|?]; contradiction.
Qed.

Lemma foldl_convert_step_map (m : gmap string value) :
  foldl convert_step m (map_to_list m) = file_to_url <$> m.
Proof.
  apply map_eq. intros k.
  rewrite foldl_convert_step.
  - rewrite lookup_fmap. destruct (decide (k ∈ (map_to_list m).*1)) as [|Hnin];
      [reflexivity |].
    destruct (m !! k) as [v|] eqn:Hk; [| reflexivity].
    exfalso. apply Hnin, list_elem_of_fmap. exists (k, v).
    split; [reflexivity | apply elem_of_map_to_list, Hk].
  - apply NoDup_fst_map_to_list.
  - intros k' v. apply elem_of_map_to_list.
Qed.

Lemma convert_files_nil l (h : heap) k :
  heap_get h l !! k = Some (VFile None) -> convert_files (Some l) h = None.
Proof.
  intros Hk. unfold convert_files.
  apply (foldl_convert_entry_nil l _ _ k), elem_of_map_to_list, Hk.
Qed.

Lemma convert_files_Some input h :
  no_nil_file input h <-> convert_files input h = Some (rewrite_files input h).
Proof.
  split.
  - intros Hnil. unfold convert_files, rewrite_files.
    destruct input as [l|]; [| reflexivity].
    assert (Hno : forall k, (k, VFile None) ∉ map_to_list (heap_get h l)).
    { intros k Hin. apply elem_of_map_to_list in Hin.
      exact (Hnil l k eq_refl Hin). }
    unfold heap_get in *. destruct (h !! l) as [m|] eqn:Hl; simpl in *.
    + rewrite <- (insert_id h l m Hl) at 1.
      rewrite (foldl_convert_entry l _ m h Hno), foldl_convert_step_map.
      reflexivity.
    + rewrite map_to_list_empty. reflexivity.
  - intros H l k -> Hk. rewrite (convert_files_nil l h k Hk) in H.
    discriminate H.
Qed.

Lemma convert_files_cases input h :
  (no_nil_file input h /\ convert_files input h = Some (rewrite_files input h))
  \/ convert_files input h = None.
Proof.
  destruct (convert_files input h) as [h1|] eqn:H; [left | right; reflexivity].
  assert (Hnil : no_nil_file input h).
  { intros l k -> Hk. rewrite (convert_files_nil l h k Hk) in H.
    discriminate H. }
  split; [exact Hnil |]. apply convert_files_Some in Hnil. congruence.
Qed.

(** A nil [*File] in the input map makes the builder panic. *)
Lemma createPredictionRequest_nil_file r ctx path data l webhook stream h k :
  heap_get h l !! k = Some (VFile None) ->
  exists msg,
    (createPredictionRequest r ctx path data (Some l) webhook stream h).2
    = Panic msg.
Proof.
  intros Hk. unfold createPredictionRequest.
  rewrite (convert_files_nil l h k Hk). simpl. eauto.
Qed.

(** The builder in one equation: the map of [input] is rewritten, the
    payload map (the one supplied, or a fresh one) is filled, and the
    payload is serialized from that heap. *)
Lemma createPredictionRequest_spec r ctx path data input webhook stream h :
  no_nil_file input h ->
  let h1 := rewrite_files input h in
  let d := match data with Some d => d | None => fresh (dom h1) end in
  let base := match data with Some d => heap_get h1 d | None => ∅ end in
  let h' := <[d := fill_payload base input webhook stream]> h1 in
  createPredictionRequest r ctx path data input webhook stream h
  = (h', build_outcome r ctx path (Marshal h' (VMap (Some d)))).
Proof.
  intros Hnil. apply convert_files_Some in Hnil.
  unfold createPredictionRequest. rewrite Hnil. cbv zeta.
  assert (Hdef : forall l v (h0 : heap),
    heap_store l "input" v h0 = <[l := <["input" := v]> (heap_get h0 l)]> h0)
    by reflexivity.
  unfold fill_payload.
  destruct data as [d|];
    (destruct webhook as [w|];
       [destruct (0 <? length (Webhook.Events w))%nat |]);
    destruct stream;
    rewrite ?heap_store_insert, ?Hdef, ?heap_store_insert;
    unfold build_outcome;
    (destruct (Marshal _ _) as [b|e|m]; [| reflexivity | reflexivity]);
    destruct (newRequest r ctx "POST" path b); reflexivity.
Qed.

Lemma fill_payload_input m input webhook stream :
  fill_payload m input webhook stream !! "input" = Some (VMap input).
Proof.
  unfold fill_payload.
  destruct webhook as [w|]; [destruct (0 <? length (Webhook.Events w))%nat |];
    destruct stream; simplify_map_eq; reflexivity.
Qed.




Lemma fill_payload_stream m input webhook :
  fill_payload m input webhook true !! "stream" = Some (VBool true).
Proof. unfold fill_payload. simplify_map_eq. reflexivity. Qed.

(** The builder touches the keys input, webhook, webhook_events_filter and
    stream of the payload map only. *)
Lemma fill_payload_other m input webhook stream k :
  k <> "input" -> k <> "webhook" -> k <> "webhook_events_filter" ->
  k <> "stream" ->
  fill_payload m input webhook stream !! k = m !! k.
Proof.
  intros. unfold fill_payload.
  destruct webhook as [w|]; [destruct (0 <? length (Webhook.Events w))%nat |];
    destruct stream; simplify_map_eq; reflexivity.
Qed.

Lemma rewrite_files_get input h l k :
  heap_get (rewrite_files input h) l !! k
  = if decide (input = Some l) then file_to_url <$> heap_get h l !! k
    else heap_get h l !! k.
Proof.
  unfold rewrite_files. destruct input as [l'|].
  - destruct (decide (Some l' = Some l)) as [[= ->]|Hne].
    + unfold heap_get at 2. destruct (h !! l) as [m|] eqn:Hl; simpl.
      * rewrite heap_get_insert_eq, lookup_fmap. reflexivity.
      * unfold heap_get. rewrite Hl. simpl. rewrite lookup_empty. reflexivity.
    + destruct (h !! l'); [| reflexivity].
      rewrite heap_get_insert_ne by congruence. reflexivity.
  - destruct (decide (None = Some l)); [discriminate | reflexivity].
Qed.

Lemma rewrite_files_dom input h : dom h ⊆ dom (rewrite_files input h).
Proof.
  unfold rewrite_files. destruct input as [l|]; [| reflexivity].
  destruct (h !! l); [| reflexivity]. rewrite dom_insert_L. set_solver.
Qed.

Lemma build_outcome_Ok r ctx path body req :
  build_outcome r ctx path body = Ok req ->
  exists b, body = Ok b /\ newRequest r ctx "POST" path b = Ok req.
Proof.
  unfold build_outcome. destruct body as [b|e|m]; try discriminate.
  destruct (newRequest r ctx "POST" path b) eqn:Hn; try discriminate.
  intros [= ->]. eauto.
Qed.

(** Where the payload map of a call lives: the map supplied, or a fresh
    one. *)
Lemma payload_loc_not_input data l (h : heap) :
  is_Some (h !! l) ->
  data <> Some l ->
  match data with
  | Some d => d
  | None => fresh (dom (rewrite_files (Some l) h))
  end <> l.
Proof.
  intros Hl Hd. destruct data as [d|]; [congruence |].
  intros Heq. apply (is_fresh (dom (rewrite_files (Some l) h))).
  rewrite Heq. apply rewrite_files_dom, elem_of_dom, Hl.
Qed.

(** C6: every entry of the input mapping that is a file reference is
    replaced, in the caller's map, by the file's "get" URL as a string (the
    empty string when the file has none), the other entries stay as they
    are, and the body is serialized from the heap that holds the rewritten
    map.  The input map is a map of the heap, holds no nil file pointer and
    is not the base payload map itself. *)
Theorem createPredictionRequest_rewrites_files r ctx path data l webhook stream
    h h' res :
  createPredictionRequest r ctx path data (Some l) webhook stream h = (h', res) ->
  is_Some (h !! l) ->
  no_nil_file (Some l) h ->
  data <> Some l ->
  (forall k file,
     heap_get h l !! k = Some (VFile (Some file)) ->
     heap_get h' l !! k
     = Some (VString (default "" (File.URLs file !! "get"))))
  /\ (forall k v,
       heap_get h l !! k = Some v -> (forall f, v <> VFile f) ->
       heap_get h' l !! k = Some v)
  /\ (forall k, heap_get h l !! k = None -> heap_get h' l !! k = None)
  /\ exists d,
       heap_get h' d !! "input" = Some (VMap (Some l))
       /\ res = build_outcome r ctx path (Marshal h' (VMap (Some d))).
Proof.
  intros H Hl Hnil Hdata.
  rewrite (createPredictionRequest_spec _ _ _ _ _ _ _ _ Hnil) in H.
  cbv zeta in H. injection H as <- <-.
  pose proof (payload_loc_not_input data l h Hl Hdata) as Hd.
  assert (Hget : forall k,
    heap_get
      (<[match data with
         | Some d => d
         | None => fresh (dom (rewrite_files (Some l) h))
         end := fill_payload
                  match data with
                  | Some d => heap_get (rewrite_files (Some l) h) d
                  | None => ∅
                  end (Some l) webhook stream]> (rewrite_files (Some l) h)) l
      !! k
    = file_to_url <$> heap_get h l !! k).
  { intros k. rewrite heap_get_insert_ne by exact Hd.
    rewrite rewrite_files_get. rewrite decide_True by reflexivity. reflexivity. }
  repeat split.
  - intros k file Hk. rewrite Hget, Hk. reflexivity.
  - intros k v Hk Hv. rewrite Hget, Hk. simpl. f_equal.
    destruct v as [ | | | | | |f| | ]; try reflexivity.
    exfalso. exact (Hv f eq_refl).
  - intros k Hk. rewrite Hget, Hk. reflexivity.
  - eexists. split; [| reflexivity].
    rewrite heap_get_insert_eq. apply fill_payload_input.
Qed.

Lemma createPredictionRequest_rewrites_files_witness :
  exists h' res,
    createPredictionRequest example_client ctx_background "/predictions" None
      (Some 1%positive) None false example_heap = (h', res)
    /\ heap_get h' 1%positive !! "image" = Some (VString "https://x/y")
    /\ heap_get h' 1%positive !! "prompt" = Some (VString "a cat").
Proof.
  destruct (createPredictionRequest example_client ctx_background "/predictions"
              None (Some 1%positive) None false example_heap) as [h' res] eqn:H.
  exists h', res. split; [reflexivity |].
  assert (Hnil : no_nil_file (Some 1%positive) example_heap).
  { apply convert_files_Some. vm_compute. reflexivity. }
  assert (Hl : is_Some (example_heap !! 1%positive)).
  { vm_compute. eauto. }
  destruct (createPredictionRequest_rewrites_files _ _ _ _ _ _ _ _ _ _ H Hl Hnil)
    as (Hfile & Hother & _); [discriminate |].
  split.
  - apply (Hfile "image" example_file). vm_compute. reflexivity.
  - apply Hother; [vm_compute; reflexivity | discriminate].
Defined.



(** C10: a nil base payload map is replaced by a fresh map, and the call
    goes on as with any other; the payload map serialized has the key
    input set to the input mapping, and a body that is sent has under input
    the serialization of the (rewritten) input mapping; a base payload map
    that is supplied is itself the map the keys are stored in. *)
Theorem createPredictionRequest_payload r ctx path data input webhook stream
    h h' res :
  createPredictionRequest r ctx path data input webhook stream h = (h', res) ->
  no_nil_file input h ->
  exists d,
    res = build_outcome r ctx path (Marshal h' (VMap (Some d)))
    /\ heap_get h' d !! "input" = Some (VMap input)
    /\ (data = None ->
        (d ∉ dom h) /\ heap_get h' d = fill_payload ∅ input webhook stream)
    /\ (forall d0, data = Some d0 ->
        d = d0
        /\ (input <> Some d0 ->
            heap_get h' d0
            = fill_payload (heap_get h d0) input webhook stream))
    /\ (forall req, res = Ok req ->
        exists body j,
          newRequest r ctx "POST" path body = Ok req
          /\ json_get "input" body = Some j
          /\ Marshal h' (VMap input) = Ok j).
Proof.
  intros H Hnil.
  rewrite (createPredictionRequest_spec _ _ _ _ _ _ _ _ Hnil) in H.
  cbv zeta in H. injection H as <- <-.
  eexists. split; [reflexivity |].
  rewrite !heap_get_insert_eq.
  split; [apply fill_payload_input |].
  split; [| split].
  - intros ->. split; [| reflexivity].
    intros Hin. apply (is_fresh (dom (rewrite_files input h))).
    apply rewrite_files_dom. exact Hin.
  - intros d0 ->. split; [reflexivity |]. intros Hne.
    rewrite heap_get_insert_eq. f_equal.
    apply map_eq. intros k. rewrite rewrite_files_get.
    rewrite decide_False by exact Hne. reflexivity.
  - intros req Hreq. apply build_outcome_Ok in Hreq as (body & Hbody & Hreq).
    apply Marshal_map in Hbody as (members & -> & Hsome & _).
    rewrite heap_get_insert_eq in Hsome.
    destruct (Hsome _ _ (fill_payload_input _ input webhook stream))
      as (j & Hj & Hm).
    exists (JObject members), j. auto.
Qed.

Lemma createPredictionRequest_payload_witness :
  exists h' res d,
    createPredictionRequest example_client ctx_background "/predictions" None
      (Some 1%positive) None true example_heap = (h', res)
    /\ (d ∉ dom example_heap)
    /\ heap_get h' d = fill_payload ∅ (Some 1%positive) None true
    /\ exists req body,
         res = Ok req
         /\ newRequest example_client ctx_background "POST" "/predictions" body
            = Ok req
         /\ json_get "input" body
            = Some (JObject [("image", JString "https://x/y");
                             ("prompt", JString "a cat")]).
Proof.
  destruct (createPredictionRequest example_client ctx_background "/predictions"
              None (Some 1%positive) None true example_heap) as [h' res] eqn:H.
  assert (Hnil : no_nil_file (Some 1%positive) example_heap).
  { apply convert_files_Some. vm_compute. reflexivity. }
  destruct (createPredictionRequest_payload _ _ _ _ _ _ _ _ _ _ H Hnil)
    as (d & Hres & Hinput & Hfresh & _ & Hbody).
  destruct (Hfresh eq_refl) as [Hd Hmap].
  exists h', res, d. split; [reflexivity |]. split; [exact Hd |].
  split; [exact Hmap |].
  assert (Hok : exists req, res = Ok req).
  { vm_compute in H. injection H as _ <-. eauto. }
  destruct Hok as [req ->].
  destruct (Hbody req eq_refl) as (body & j & Hnew & Hget & Hj).
  exists req, body. split; [reflexivity |]. split; [exact Hnew |].
  rewrite Hget. f_equal.
  vm_compute in H. injection H as <- _. vm_compute in Hj.
  injection Hj as <-. reflexivity.
Defined.

End RequestBuilder.

(** ** The raw payload *)

Section RawPayload.

(** The raw payload after a call is the payload of the call. *)
Lemma UnmarshalJSON_rawJSON (json_Unmarshal : decoder) (p : Prediction)
    (data : text) :
  rawJSON (UnmarshalJSON json_Unmarshal p data).1 = data.
Proof.
  unfold UnmarshalJSON. simpl.
  destruct (json_Unmarshal data (exported p)) as [a err]. reflexivity.
Qed.

(** C2, as the code has it: after a call of [UnmarshalJSON] the raw payload
    is the payload of that call, whether decoding succeeded or failed, and
    the fields are those the decoder left. *)
Theorem UnmarshalJSON_stores_payload (json_Unmarshal : decoder)
    (p : Prediction) (data : text) :
  rawJSON (UnmarshalJSON json_Unmarshal p data).1 = data
  /\ exported (UnmarshalJSON json_Unmarshal p data).1
     = (json_Unmarshal data (exported p)).1
  /\ (UnmarshalJSON json_Unmarshal p data).2
     = (json_Unmarshal data (exported p)).2.
Proof.
  split; [apply UnmarshalJSON_rawJSON |].
  unfold UnmarshalJSON. simpl.
  destruct (json_Unmarshal data (exported p)) as [a err]. auto.
Qed.

(** C2 fails as stated: a decode that fails leaves the payload that failed,
    not the payload decoded before it. *)
Lemma failed_decode_overwrites_rawJSON :
  let first := UnmarshalJSON Json.Unmarshal zero_Prediction example_payload in
  let second := UnmarshalJSON Json.Unmarshal first.1 bad_payload in
  first.2 = None
  /\ rawJSON first.1 = example_payload
  /\ second.2
     = Some (ErrNew "json: cannot unmarshal number into Go struct field id")
  /\ rawJSON second.1 = bad_payload
  /\ rawJSON second.1 <> example_payload.
Proof.
  cbv zeta. repeat split; try (vm_compute; reflexivity).
  vm_compute. discriminate.
Qed.



End RawPayload.

(** ** The operations *)

Section Operations.

Lemma no_nil_file_insert input (h : heap) d m :
  no_nil_file input h ->
  (forall k, m !! k <> Some (VFile None)) ->
  no_nil_file input (<[d := m]> h).
Proof.
  intros Hnil Hm l k Hl. destruct (decide (d = l)) as [->|Hne].
  - rewrite heap_get_insert_eq. apply Hm.
  - rewrite heap_get_insert_ne by exact Hne. apply Hnil, Hl.
Qed.

(** [CreatePrediction] with the payload map [m] that lines 154 to 161
    prepare at the fresh location [d], and the path they choose. *)
Lemma CreatePrediction_model_path P r ctx identifier input webhook stream h
    owner name :
  P identifier
  = Ok {| Identifier.Owner := owner; Identifier.Name := name;
          Identifier.Version := None |} ->
  CreatePrediction P r ctx identifier input webhook stream h
  = let '(h', req) :=
      createPredictionRequest r ctx
        ("/models/" ++ owner ++ "/" ++ name ++ "/predictions")%string
        (Some (fresh (dom h))) input webhook stream
        (<[fresh (dom h) := ∅]> h) in
    (h', create_outcome r req).
Proof.
  intros HP. unfold CreatePrediction. rewrite HP.
  destruct (createPredictionRequest _ _ _ _ _ _ _ _) as [h' [req|e|m]];
    [| reflexivity | reflexivity].
  simpl. destruct (do r req zero_Prediction) as [p [e|]]; reflexivity.
Qed.

Lemma CreatePrediction_generic_path P r ctx identifier input webhook stream h :
  (exists e, P identifier = Err e)
  \/ (exists id v, P identifier = Ok id /\ Identifier.Version id = Some v) ->
  CreatePrediction P r ctx identifier input webhook stream h
  = let '(h', req) :=
      createPredictionRequest r ctx "/predictions"
        (Some (fresh (dom h))) input webhook stream
        (<[fresh (dom h) := <["version" := VString identifier]> ∅]> h) in
    (h', create_outcome r req).
Proof.
  intros HP. unfold CreatePrediction.
  assert (Hstore :
    heap_store (fresh (dom h)) "version" (VString identifier)
      (<[fresh (dom h) := ∅]> h)
    = <[fresh (dom h) := <["version" := VString identifier]> ∅]> h)
    by apply heap_store_insert.
  destruct HP as [[e ->]|(id & v & -> & Hv)].
  - rewrite Hstore.
    destruct (createPredictionRequest _ _ _ _ _ _ _ _) as [h' [req|e'|m]];
      [| reflexivity | reflexivity].
    simpl. destruct (do r req zero_Prediction) as [p [e'|]]; reflexivity.
  - destruct id as [o n ver]. simpl in Hv. subst ver. rewrite Hstore.
    destruct (createPredictionRequest _ _ _ _ _ _ _ _) as [h' [req|e'|m]];
      [| reflexivity | reflexivity].
    simpl. destruct (do r req zero_Prediction) as [p [e'|]]; reflexivity.
Qed.








(** The two examples of the spec, as the server sees them. *)
Lemma CreatePrediction_examples :
  (exists h' p,
     CreatePrediction ParseIdentifier_model spy_client ctx_background
       "owner/name" None None false ∅ = (h', Ok p)
     /\ Model p = "https://api.replicate.com/v1/models/owner/name/predictions"
     /\ Version p = "")
  /\ (exists h' p,
       CreatePrediction ParseIdentifier_model spy_client ctx_background
         "abc123" None None false ∅ = (h', Ok p)
       /\ Model p = "https://api.replicate.com/v1/predictions"
       /\ Version p = "abc123").
Proof.
  split; eexists _, _; (split; [vm_compute; reflexivity |]); split; reflexivity.
Qed.

(** C9, with the messages of the code: when the transport fails, each of
    the four operations returns no entity and the error of the transport
    wrapped once, under "failed to create prediction", "failed to list
    predictions", "failed to get prediction" or "failed to cancel
    prediction"; when the transport succeeds, the operation returns the
    entity the transport decoded and no error.  For create, the request is
    the one the request builder returned. *)
Theorem operations_wrap_transport_errors (P : parser) (r : Client)
    (ctx : Context) :
  (forall identifier input webhook stream h h' res,
     CreatePrediction P r ctx identifier input webhook stream h = (h', res) ->
     (forall msg, P identifier <> Panic msg) ->
     exists path data h0 built,
       createPredictionRequest r ctx path (Some data) input webhook stream h0
       = (h', built)
       /\ (forall req out e,
            built = Ok req -> do r req zero_Prediction = (out, Some e) ->
            res = Err (ErrWrap "failed to create prediction" e))
       /\ (forall req prediction,
            built = Ok req -> do r req zero_Prediction = (prediction, None) ->
            res = Ok prediction))
  /\ (forall out e,
       fetch_Page r ctx "GET" "/predictions" None zero_Page = (out, Some e) ->
       ListPredictions r ctx = Err (ErrWrap "failed to list predictions" e))
  /\ (forall response,
       fetch_Page r ctx "GET" "/predictions" None zero_Page = (response, None) ->
       ListPredictions r ctx = Ok response)
  /\ (forall id out e,
       fetch_Prediction r ctx "GET" ("/predictions/" ++ id) None zero_Prediction
       = (out, Some e) ->
       GetPrediction r ctx id = Err (ErrWrap "failed to get prediction" e))
  /\ (forall id prediction,
       fetch_Prediction r ctx "GET" ("/predictions/" ++ id) None zero_Prediction
       = (prediction, None) ->
       GetPrediction r ctx id = Ok prediction)
  /\ (forall id out e,
       fetch_Prediction r ctx "POST" ("/predictions/" ++ id ++ "/cancel") None
         zero_Prediction = (out, Some e) ->
       CancelPrediction r ctx id = Err (ErrWrap "failed to cancel prediction" e))
  /\ (forall id prediction,
       fetch_Prediction r ctx "POST" ("/predictions/" ++ id ++ "/cancel") None
         zero_Prediction = (prediction, None) ->
       CancelPrediction r ctx id = Ok prediction).
Proof.
  repeat apply conj.
  - intros identifier input webhook stream h h' res H HP.
    unfold CreatePrediction in H.
    set (d := fresh (dom h)) in *.
    assert (Hgen : forall path h0,
      (let '(h1, built) :=
         createPredictionRequest r ctx path (Some d) input webhook stream h0 in
       match built with
       | Ok req =>
           let '(prediction, o) := do r req zero_Prediction in
           match o with
           | Some e => (h1, Err (ErrWrap "failed to create prediction" e))
           | None => (h1, Ok prediction)
           end
       | Err e => (h1, Err e)
       | Panic msg => (h1, Panic msg)
       end) = (h', res) ->
      exists path data h0 built,
        createPredictionRequest r ctx path (Some data) input webhook stream h0
        = (h', built)
        /\ (forall req out e,
             built = Ok req -> do r req zero_Prediction = (out, Some e) ->
             res = Err (ErrWrap "failed to create prediction" e))
        /\ (forall req prediction,
             built = Ok req -> do r req zero_Prediction = (prediction, None) ->
             res = Ok prediction)).
    { intros path h0 Hrun.
      destruct (createPredictionRequest r ctx path (Some d) input webhook
                  stream h0) as [h1 built] eqn:Hb.
      exists path, d, h0, built.
      destruct built as [req|e|msg].
      - destruct (do r req zero_Prediction) as [p [e|]] eqn:Hdo;
          injection Hrun as <- <-; (split; [exact Hb |]);
          (split;
             [intros req' out' e' [= <-] Hdo' | intros req' p' [= <-] Hdo']);
          congruence.
      - injection Hrun as <- <-. split; [exact Hb |].
        split; intros; discriminate.
      - injection Hrun as <- <-. split; [exact Hb |].
        split; intros; discriminate. }
    destruct (P identifier) as [[o n [v|]]|e|msg] eqn:Hid.
    + apply Hgen in H. exact H.
    + apply Hgen in H. exact H.
    + apply Hgen in H. exact H.
    + exfalso. exact (HP msg eq_refl).
  - intros out e H. unfold ListPredictions. rewrite H. reflexivity.
  - intros response H. unfold ListPredictions. rewrite H. reflexivity.
  - intros id out e H. unfold GetPrediction. rewrite H. reflexivity.
  - intros id prediction H. unfold GetPrediction. rewrite H. reflexivity.
  - intros id out e H. unfold CancelPrediction. rewrite H. reflexivity.
  - intros id prediction H. unfold CancelPrediction. rewrite H. reflexivity.
Qed.

Lemma operations_wrap_transport_errors_witness :
  ListPredictions failing_client ctx_background
  = Err (ErrWrap "failed to list predictions" (ErrNew "connection refused"))
  /\ GetPrediction failing_client ctx_background "p1"
     = Err (ErrWrap "failed to get prediction" (ErrNew "connection refused"))
  /\ CancelPrediction failing_client ctx_background "p1"
     = Err (ErrWrap "failed to cancel prediction" (ErrNew "connection refused"))
  /\ GetPrediction example_client ctx_background "p1"
     = Ok (UnmarshalJSON Json.Unmarshal zero_Prediction example_payload).1
  /\ CancelPrediction example_client ctx_background "p1"
     = Ok (UnmarshalJSON Json.Unmarshal zero_Prediction example_payload).1
  /\ ListPredictions example_client ctx_background
     = Ok {| Previous := None; Next := None;
             Results :=
               [(UnmarshalJSON Json.Unmarshal zero_Prediction example_payload).1] |}
  /\ (let run :=
        CreatePrediction ParseIdentifier_model failing_client ctx_background
          "owner/name" None None false ∅ in
      exists path data h0 built,
        createPredictionRequest failing_client ctx_background path (Some data)
          None None false h0 = (run.1, built)
        /\ (forall req out e,
             built = Ok req ->
             do failing_client req zero_Prediction = (out, Some e) ->
             run.2 = Err (ErrWrap "failed to create prediction" e))
        /\ (forall req prediction,
             built = Ok req ->
             do failing_client req zero_Prediction = (prediction, None) ->
             run.2 = Ok prediction)).
Proof.
  pose proof (operations_wrap_transport_errors ParseIdentifier_model
                failing_client ctx_background)
    as (Hcreate & Hlist & _ & Hget & _ & Hcancel & _).
  pose proof (operations_wrap_transport_errors ParseIdentifier_model
                example_client ctx_background)
    as (_ & _ & Hlist' & _ & Hget' & _ & Hcancel').
  split; [apply (Hlist zero_Page); reflexivity |].
  split; [apply (Hget "p1" zero_Prediction); reflexivity |].
  split; [apply (Hcancel "p1" zero_Prediction); reflexivity |].
  split; [apply Hget'; vm_compute; reflexivity |].
  split; [apply Hcancel'; vm_compute; reflexivity |].
  split; [apply Hlist'; vm_compute; reflexivity |].
  cbv zeta. apply (Hcreate "owner/name" None None false ∅).
  - apply surjective_pairing.
  - intros msg. vm_compute. discriminate.
Defined.

(** Create against a transport that fails, and against one that answers. *)
Lemma CreatePrediction_transport_examples :
  (CreatePrediction ParseIdentifier_model failing_client ctx_background
     "owner/name" None None false ∅).2
  = Err (ErrWrap "failed to create prediction" (ErrNew "connection refused"))
  /\ (CreatePrediction ParseIdentifier_model example_client ctx_background
        "owner/name" None None false ∅).2
     = Ok (UnmarshalJSON Json.Unmarshal zero_Prediction example_payload).1.
Proof. split; vm_compute; reflexivity. Qed.

(** C9 fails as stated for list: its message is "failed to list predictions",
    not "failed to list prediction". *)
Lemma ListPredictions_message :
  exists e,
    ListPredictions failing_client ctx_background = Err e
    /\ error_message e = "failed to list predictions: connection refused"
    /\ error_message e <> "failed to list prediction: connection refused".
Proof.
  eexists. split; [reflexivity |]. split; [reflexivity | discriminate].
Qed.

End Operations.

(** * Further properties *)

(** ** The priorities of the matcher on the progress pattern *)

Section Priorities.
Import Regexp.

Lemma rmatch_Class_cons cl (k : cont) b a s c :
  rmatch (Class cl) k b (a :: s) c = if in_class cl a then k false s c else None.
Proof. reflexivity. Qed.

Lemma rmatch_Class_not_starting cl (k : cont) b s c :
  not_starting cl s -> rmatch (Class cl) k b s c = None.
Proof.
  destruct s as [|x s]; [reflexivity |]. simpl. intros ->. reflexivity.
Qed.

Lemma star_loop_greedy_class cl (k : cont) w s c res n b :
  all_in cl w -> not_starting cl s ->
  (length (w ++ s) < n)%nat ->
  k (b && nilb w) s c = Some res ->
  star_loop true (rmatch (Class cl)) k n b (w ++ s) c = Some res.
Proof.
  intros Hw Hs. revert n b. induction Hw as [|a w Ha _ IH]; intros n b Hn Hk.
  - destruct n as [|n]; [simpl in Hn; lia |]. simpl app. cbn [star_loop].
    simpl in Hk. rewrite andb_true_r in Hk.
    rewrite rmatch_Class_not_starting by exact Hs. exact Hk.
  - destruct n as [|n]; [simpl in Hn; lia |]. simpl app. cbn [star_loop].
    rewrite rmatch_Class_cons, Ha.
    replace (length (w ++ s) <? length (a :: w ++ s))%nat with true
      by (symmetry; apply Nat.ltb_lt; simpl; lia).
    rewrite (IH n false); [reflexivity | simpl in Hn; lia |].
    simpl in Hk. rewrite andb_false_r in Hk. exact Hk.
Qed.

Lemma star_loop_lazy_class cl (k : cont) w s c res n b :
  all_in cl w ->
  (forall w1 w2, w = w1 ++ w2 -> w2 <> [] ->
     k (b && nilb w1) (w2 ++ s) c = None) ->
  (length (w ++ s) < n)%nat ->
  k (b && nilb w) s c = Some res ->
  star_loop false (rmatch (Class cl)) k n b (w ++ s) c = Some res.
Proof.
  intros Hw. revert n b. induction Hw as [|a w Ha _ IH]; intros n b Hfail Hn Hk.
  - destruct n as [|n]; [simpl in Hn; lia |]. simpl app. cbn [star_loop].
    simpl in Hk. rewrite andb_true_r in Hk. rewrite Hk. reflexivity.
  - destruct n as [|n]; [simpl in Hn; lia |]. simpl app. cbn [star_loop].
    pose proof (Hfail [] (a :: w) eq_refl ltac:(discriminate)) as H0.
    simpl in H0. rewrite andb_true_r in H0. rewrite H0. cbn [orelse].
    rewrite rmatch_Class_cons, Ha.
    replace (length (w ++ s) <? length (a :: w ++ s))%nat with true
      by (symmetry; apply Nat.ltb_lt; simpl; lia).
    apply (IH n false); [| simpl in Hn; lia |].
    + intros w1 w2 -> Hw2. specialize (Hfail (a :: w1) w2 eq_refl Hw2).
      simpl in Hfail. rewrite andb_false_r in Hfail. exact Hfail.
    + simpl in Hk. rewrite andb_false_r in Hk. exact Hk.
Qed.

Lemma rmatch_Cat r1 r2 (k : cont) b s c :
  rmatch (Cat r1 r2) k b s c = rmatch r1 (rmatch r2 k) b s c.
Proof. reflexivity. Qed.

Lemma rmatch_Star_greedy_class cl (k : cont) b w s c res :
  all_in cl w -> not_starting cl s ->
  k (b && nilb w) s c = Some res ->
  rmatch (Star true (Class cl)) k b (w ++ s) c = Some res.
Proof.
  intros Hw Hs Hk.
  change (star_loop true (rmatch (Class cl)) k (S (length (w ++ s))) b (w ++ s) c
          = Some res).
  apply star_loop_greedy_class; auto.
Qed.

Lemma rmatch_Lit a (k : cont) b s c :
  rmatch (Class (Lit a)) k b (a :: s) c = k false s c.
Proof. rewrite rmatch_Class_cons. simpl. rewrite Ascii.eqb_refl. reflexivity. Qed.

Lemma rmatch_Lit_other a r (k : cont) b s c :
  not_starting (Lit a) s -> rmatch (Cat (Class (Lit a)) r) k b s c = None.
Proof. intros Hs. rewrite rmatch_Cat. apply rmatch_Class_not_starting, Hs. Qed.

(** A group of digits takes the whole run of digits. *)
Lemma rmatch_digits i (k : cont) b ds s c res :
  all_in Digit ds -> ds <> [] -> not_starting Digit s ->
  k false s (<[i := ds]> c) = Some res ->
  rmatch (Group i (Cat (Cat (Class Digit) (Star true (Class Digit))) Empty))
    k b (ds ++ s) c = Some res.
Proof.
  intros Hds Hne Hs Hk. destruct Hds as [|d ds Hd Hds]; [congruence |].
  change (rmatch (Class Digit)
            (rmatch (Star true (Class Digit))
               (rmatch Empty
                  (fun b' s' c' =>
                     k b' s'
                       (<[i := take (length ((d :: ds) ++ s) - length s')
                                 ((d :: ds) ++ s)]> c'))))
            b (d :: ds ++ s) c = Some res).
  rewrite rmatch_Class_cons, Hd.
  apply rmatch_Star_greedy_class; [exact Hds | exact Hs |].
  cbn [rmatch]. rewrite take_consumed. exact Hk.
Qed.

(** The lazy run of [.+?] stops at the first place where the rest of the
    pattern matches. *)
Lemma rmatch_dots_lazy (k : cont) b dots s c res :
  all_in AnyNotNL dots -> dots <> [] ->
  (forall w1 w2, dots = w1 ++ w2 -> w1 <> [] -> w2 <> [] ->
     k false (w2 ++ s) c = None) ->
  k false s c = Some res ->
  rmatch (Cat (Class AnyNotNL) (Star false (Class AnyNotNL))) k b (dots ++ s) c
  = Some res.
Proof.
  intros Hd Hne Hfail Hk. destruct Hd as [|d dots Hd Hdots]; [congruence |].
  rewrite rmatch_Cat. simpl app. rewrite rmatch_Class_cons, Hd.
  change (star_loop false (rmatch (Class AnyNotNL)) k
            (S (length (dots ++ s))) false (dots ++ s) c = Some res).
  apply star_loop_lazy_class; [exact Hdots | | lia | exact Hk].
  intros w1 w2 -> Hw2. apply (Hfail (d :: w1) w2); [reflexivity | discriminate | exact Hw2].
Qed.

Lemma digit_not_space a : in_class Digit a = true -> in_class Space a = false.
Proof.
  destruct a as [[] [] [] [] [] [] [] []]; intros H; try discriminate H;
    reflexivity.
Qed.

Lemma rmatch_BeginText (k : cont) s c :
  rmatch BeginText k true s c = k true s c.
Proof. reflexivity. Qed.

Lemma not_starting_digits cl ds s :
  all_in Digit ds -> ds <> [] ->
  (forall a, in_class Digit a = true -> in_class cl a = false) ->
  not_starting cl (ds ++ s).
Proof.
  intros Hds Hne Hcl. destruct Hds as [|d ds Hd _]; [congruence |].
  simpl. apply Hcl, Hd.
Qed.

Ltac app_norm :=
  repeat (rewrite <- app_assoc || rewrite <- app_comm_cons
          || rewrite app_nil_l).

(** The submatches of a line with a plain bar. *)
Lemma match_here_plain ws1 pct ws2 dots ws3 cur tot rest :
  plain_progress ws1 pct ws2 dots ws3 cur tot rest ->
  match_here progress_re true
    (progress_text ws1 pct ws2 dots ws3 cur tot ++ rest)
  = Some [progress_text ws1 pct ws2 dots ws3 cur tot; pct; cur; tot].
Proof.
  intros (H1 & Hp & Hpn & H2 & Hd & Hdn & Hbar & H3 & Hc & Hcn & Ht & Htn & Hr).
  unfold match_here.
  set (w := progress_text ws1 pct ws2 dots ws3 cur tot).
  set (kf := fun (_ : bool) (s' : text) (c : caps) =>
               Some (<[0%nat := take (length (w ++ rest) - length s') (w ++ rest)]> c)).
  change (replicate (S (num_groups progress_re)) [])
    with ([[]; []; []; []] : caps).
  replace (w ++ rest)
    with (ws1 ++ pct ++ "%"%char :: ws2 ++ "|"%char :: dots
              ++ "|"%char :: ws3 ++ cur ++ "/"%char :: tot ++ rest)
    by (unfold w, progress_text; app_norm; reflexivity).
  unfold progress_re.
  rewrite rmatch_Cat, rmatch_BeginText, rmatch_Cat.
  apply rmatch_Star_greedy_class;
    [exact H1 | apply not_starting_digits; auto using digit_not_space |].
  rewrite rmatch_Cat.
  apply rmatch_digits; [exact Hp | exact Hpn | reflexivity |].
  rewrite rmatch_Cat, rmatch_Lit, rmatch_Cat.
  apply rmatch_Star_greedy_class; [exact H2 | reflexivity |].
  rewrite rmatch_Cat, rmatch_Lit, rmatch_Cat.
  apply rmatch_dots_lazy; [exact Hd | exact Hdn | |].
  { intros w1 w2 -> _ Hw2. destruct w2 as [|x w2]; [congruence |].
    simpl app. apply rmatch_Lit_other. simpl.
    apply Ascii.eqb_neq. intros ->. apply Hbar.
    apply elem_of_app. right. left. }
  rewrite rmatch_Cat, rmatch_Lit, rmatch_Cat.
  apply rmatch_Star_greedy_class;
    [exact H3 | apply not_starting_digits; auto using digit_not_space |].
  rewrite rmatch_Cat.
  apply rmatch_digits; [exact Hc | exact Hcn | reflexivity |].
  rewrite rmatch_Cat, rmatch_Lit, rmatch_Cat.
  apply rmatch_digits; [exact Ht | exact Htn | exact Hr |].
  cbn [rmatch]. unfold kf. rewrite take_consumed. reflexivity.
Qed.

End Priorities.

(** ** The result of the progress parser *)

Section ProgressResult.
Import Regexp.

Lemma FindStringSubmatch_plain ws1 pct ws2 dots ws3 cur tot rest :
  plain_progress ws1 pct ws2 dots ws3 cur tot rest ->
  FindStringSubmatch progress_re
    (progress_text ws1 pct ws2 dots ws3 cur tot ++ rest)
  = [progress_text ws1 pct ws2 dots ws3 cur tot; pct; cur; tot].
Proof.
  intros H. unfold FindStringSubmatch.
  rewrite search_begin, (match_here_plain _ _ _ _ _ _ _ _ H). reflexivity.
Qed.

Lemma plain_progress_match ws1 pct ws2 dots ws3 cur tot rest :
  plain_progress ws1 pct ws2 dots ws3 cur tot rest ->
  progress_match (progress_text ws1 pct ws2 dots ws3 cur tot) pct cur tot.
Proof.
  intros (H1 & Hp & Hpn & H2 & Hd & Hdn & Hbar & H3 & Hc & Hcn & Ht & Htn & Hr).
  exists ws1, ws2, dots, ws3. repeat split; auto.
Qed.

(** The value scanned from a group of digits. *)
Lemma Sscanf_d_group ds :
  all_in Digit ds -> ds <> [] -> Fmt.Sscanf_d ds 0 = int_of_group ds.
Proof.
  intros Hall Hne. unfold int_of_group. cbv zeta.
  destruct (Z.leb_spec (Fmt.scan_digits 0 ds) Fmt.max_int64) as [Hle|Hgt].
  - apply Sscanf_d_digits; assumption.
  - destruct Hall as [|a t Ha Ht]; [congruence |].
    unfold Fmt.Sscanf_d, Fmt.scan_int. cbn [length].
    rewrite (skip_space_digit a t _ Ha), (scan_sign_digit a t Ha).
    change (Fmt.is_digit a) with (in_class Digit a). rewrite Ha.
    destruct (Z.leb_spec (Fmt.scan_digits 0 (a :: t)) Fmt.max_int64);
      [lia |].
    rewrite andb_false_r. reflexivity.
Qed.

Lemma int_of_group_range ds :
  (0 <= int_of_group ds <= Fmt.max_int64)%Z.
Proof.
  unfold int_of_group. cbv zeta.
  pose proof (scan_digits_nonneg ds 0 ltac:(lia)).
  destruct (Z.leb_spec (Fmt.scan_digits 0 ds) Fmt.max_int64);
    unfold Fmt.max_int64 in *; lia.
Qed.

Lemma snapshot_of_groups w pct cur tot :
  progress_match w pct cur tot ->
  snapshot_of [w; pct; cur; tot]
  = {| Percentage :=
         float64_of_int (int_of_group pct) / float64_of_int 100;
       Current := int_of_group cur;
       Total := int_of_group tot |}.
Proof.
  intros (ws1 & ws2 & dots & ws3 & _ & _ & Hp & Hpn & _ & _ & _ & _ & Hc & Hcn
          & Ht & Htn).
  unfold snapshot_of.
  change ([w; pct; cur; tot] !!! 1%nat) with pct.
  change ([w; pct; cur; tot] !!! 2%nat) with cur.
  change ([w; pct; cur; tot] !!! 3%nat) with tot.
  rewrite !Sscanf_d_group by assumption. reflexivity.
Qed.

Lemma Progress_loop_None lines n :
  Progress_loop progress_re lines n = None ->
  forall j, (j < n)%nat -> ~ matching_line (lines !!! j).
Proof.
  induction n as [|n IH]; intros H j Hj; [lia |].
  assert (Hn : ~ matching_line (lines !!! n)).
  { intros Hm. rewrite (Progress_loop_hit lines n Hm) in H. discriminate H. }
  destruct (decide (j = n)) as [->|Hne]; [exact Hn |].
  apply IH; [| lia].
  rewrite <- H. symmetry. apply Progress_loop_skip; [lia |].
  intros i Hi. replace i with n by lia. exact Hn.
Qed.

(** [Progress] on a prediction with logs is the loop over their lines; on
    empty logs the loop finds nothing. *)
Lemma Progress_unfold (p : Prediction) (logs : string) :
  Logs p = Some logs ->
  Progress p
  = Progress_loop progress_re (Strings.Split (bytes_of logs) "010"%char)
      (length (Strings.Split (bytes_of logs) "010"%char)).
Proof.
  intros Hlogs. unfold Progress. rewrite Hlogs, MustCompile_pattern.
  destruct logs as [|a logs']; [reflexivity |]. cbn [String.eqb].
  destruct (Strings.Split (bytes_of (String a logs')) "010"%char); reflexivity.
Qed.

Lemma Progress_at_last_match (p : Prediction) (logs : string)
    (pre post : list text) (l : text) :
  Logs p = Some logs ->
  Strings.Split (bytes_of logs) "010"%char = pre ++ l :: post ->
  matching_line l ->
  (forall l', l' ∈ post -> ~ matching_line l') ->
  Progress p = Some (snapshot_of (FindStringSubmatch progress_re l)).
Proof.
  intros Hlogs Hsplit Hl Hpost.
  rewrite (Progress_unfold p logs Hlogs), Hsplit.
  rewrite (Progress_loop_skip _ _ (S (length pre))).
  - rewrite Progress_loop_hit; rewrite list_lookup_total_middle by reflexivity;
      [reflexivity | exact Hl].
  - rewrite length_app. simpl. lia.
  - intros j Hj Hm. rewrite length_app in Hj. simpl in Hj.
    rewrite lookup_total_app_r in Hm by lia.
    replace (j - length pre)%nat with (S (j - S (length pre))) in Hm by lia.
    rewrite lookup_total_cons_ne_0 in Hm by lia. simpl in Hm.
    apply (Hpost _ (list_elem_of_lookup_total_2 post (j - S (length pre))
                      ltac:(lia))).
    exact Hm.
Qed.

(** X1: [Progress] returns a snapshot exactly when the prediction has logs
    and the pattern matches some line of them, the line taken as it is;
    nil logs, empty logs and logs without such a line give no result. *)
Theorem Progress_result_iff_matching_line (p : Prediction) :
  is_Some (Progress p)
  <-> exists logs l,
        Logs p = Some logs
        /\ l ∈ Strings.Split (bytes_of logs) "010"%char
        /\ MatchString (MustCompile pattern) l = true.
Proof.
  rewrite MustCompile_pattern. split.
  - intros [snap H]. destruct (Logs p) as [logs|] eqn:Hlogs.
    2:{ unfold Progress in H. rewrite Hlogs in H. discriminate H. }
    rewrite (Progress_unfold p logs Hlogs) in H.
    apply Progress_loop_Some in H as (i & Hi & Hm & _).
    exists logs, (Strings.Split (bytes_of logs) "010"%char !!! i).
    split; [reflexivity |].
    split; [apply list_elem_of_lookup_total_2, Hi |].
    apply MatchString_progress, Hm.
  - intros (logs & l & Hlogs & Hl & Hm). apply MatchString_progress in Hm.
    rewrite (Progress_unfold p logs Hlogs).
    destruct (Progress_loop progress_re _ _) as [snap|] eqn:H; [eauto |].
    exfalso. apply list_elem_of_lookup_total_1 in Hl as (j & Hj & <-).
    exact (Progress_loop_None _ _ H j Hj Hm).
Qed.

(** X2: the pattern of [Progress] accepts exactly the lines that start with
    white space (tab, newline, form feed, carriage return or space, maybe
    none), one or more digits, [%], white space, [|], one or more bytes
    other than a newline, [|], white space, one or more digits, [/] and one
    or more digits; what follows is free.  On those lines, and on no other,
    [FindStringSubmatch] returns four submatches, so the test of line 89
    holds; on every other line it returns the nil slice. *)
Theorem pattern_accepts (line : text) :
  (MatchString (MustCompile pattern) line = true <-> matching_line line)
  /\ (length (FindStringSubmatch (MustCompile pattern) line) = 4%nat
      <-> matching_line line)
  /\ (FindStringSubmatch (MustCompile pattern) line = []
      <-> ~ matching_line line).
Proof.
  rewrite MustCompile_pattern.
  split; [apply MatchString_progress |]. split; split.
  - apply FindStringSubmatch_progress_length.
  - intros Hm. destruct (FindStringSubmatch_progress _ Hm)
      as (w & rest & pct & cur & tot & _ & _ & ->). reflexivity.
  - intros Hnil Hm. destruct (FindStringSubmatch_progress _ Hm)
      as (w & rest & pct & cur & tot & _ & _ & HF).
    rewrite HF in Hnil. discriminate Hnil.
  - apply FindStringSubmatch_progress_nil.
Qed.

(** X3: the pattern is anchored at the start of the line: a line it
    accepts is not empty and starts with a white-space byte or a digit, so a
    progress bar that follows other text on its line is not recognized. *)
Theorem pattern_anchored (line : text) :
  MatchString (MustCompile pattern) line = true ->
  exists a rest,
    line = a :: rest
    /\ (in_class Space a = true \/ in_class Digit a = true).
Proof.
  rewrite MustCompile_pattern. intros H. apply MatchString_progress in H.
  destruct H as (w & rest & pct & cur & tot & -> & Hpm).
  destruct Hpm as (ws1 & ws2 & dots & ws3 & -> & H1 & Hp & Hpn & _).
  destruct H1 as [|a ws1 Ha _].
  - destruct Hp as [|d pct Hd _]; [congruence |].
    eexists d, _. split; [reflexivity | right; exact Hd].
  - eexists a, _. split; [reflexivity | left; exact Ha].
Qed.

Lemma pattern_anchored_witness :
  exists a rest,
    bytes_of "  45% |####|9/20" = a :: rest
    /\ (in_class Space a = true \/ in_class Digit a = true).
Proof.
  apply (pattern_anchored (bytes_of "  45% |####|9/20")).
  vm_compute. reflexivity.
Defined.

(** X4: a snapshot returned by [Progress] is built from the four
    submatches of a line of the logs: current and total are the decimal
    values of the second and third group, the percentage is the value of
    the first group divided by 100, and a group whose value does not fit
    in 64 bits counts as zero, since the scan error is dropped and the
    variable keeps its zero. *)
Theorem Progress_fields (p : Prediction) (snap : PredictionProgress) :
  Progress p = Some snap ->
  exists logs line w pct cur tot,
    Logs p = Some logs
    /\ line ∈ Strings.Split (bytes_of logs) "010"%char
    /\ FindStringSubmatch (MustCompile pattern) line = [w; pct; cur; tot]
    /\ progress_match w pct cur tot
    /\ Percentage snap
       = (float64_of_int (int_of_group pct) / float64_of_int 100)%float
    /\ Current snap = int_of_group cur
    /\ Total snap = int_of_group tot.
Proof.
  rewrite MustCompile_pattern. intros H.
  destruct (Logs p) as [logs|] eqn:Hlogs.
  2:{ unfold Progress in H. rewrite Hlogs in H. discriminate H. }
  rewrite (Progress_unfold p logs Hlogs) in H.
  apply Progress_loop_Some in H as (i & Hi & Hm & ->).
  destruct (FindStringSubmatch_progress _ Hm)
    as (w & rest & pct & cur & tot & _ & Hpm & HF).
  exists logs, (Strings.Split (bytes_of logs) "010"%char !!! i), w, pct, cur, tot.
  split; [reflexivity |].
  split; [apply list_elem_of_lookup_total_2, Hi |].
  split; [exact HF |]. split; [exact Hpm |].
  rewrite HF, (snapshot_of_groups _ _ _ _ Hpm). auto.
Qed.

Lemma Progress_fields_witness :
  let snap :=
    {| Percentage := float64_of_int 20 / float64_of_int 100;
       Current := 10; Total := 50 |} in
  exists logs line w pct cur tot,
    Logs (prediction_with_logs example_logs) = Some logs
    /\ line ∈ Strings.Split (bytes_of logs) "010"%char
    /\ FindStringSubmatch (MustCompile pattern) line = [w; pct; cur; tot]
    /\ progress_match w pct cur tot
    /\ Percentage snap
       = (float64_of_int (int_of_group pct) / float64_of_int 100)%float
    /\ Current snap = int_of_group cur
    /\ Total snap = int_of_group tot.
Proof.
  cbv zeta.
  apply (Progress_fields (prediction_with_logs example_logs)
           {| Percentage := float64_of_int 20 / float64_of_int 100;
              Current := 10; Total := 50 |}).
  vm_compute. reflexivity.
Defined.

(** X5: the current and total of a snapshot returned by [Progress] are
    never negative and never above the largest 64-bit integer. *)
Theorem Progress_counts_in_range (p : Prediction) (snap : PredictionProgress) :
  Progress p = Some snap ->
  (0 <= Current snap <= Fmt.max_int64)%Z
  /\ (0 <= Total snap <= Fmt.max_int64)%Z.
Proof.
  intros H. destruct (Logs p) as [logs|] eqn:Hlogs.
  2:{ unfold Progress in H. rewrite Hlogs in H. discriminate H. }
  rewrite (Progress_unfold p logs Hlogs) in H.
  apply Progress_loop_Some in H as (i & Hi & Hm & ->).
  destruct (FindStringSubmatch_progress _ Hm)
    as (w & rest & pct & cur & tot & _ & Hpm & ->).
  rewrite (snapshot_of_groups _ _ _ _ Hpm). cbn [Current Total].
  split; apply int_of_group_range.
Qed.

Lemma Progress_counts_in_range_witness :
  (0 <= 10 <= Fmt.max_int64)%Z /\ (0 <= 50 <= Fmt.max_int64)%Z.
Proof.
  apply (Progress_counts_in_range (prediction_with_logs example_logs)
           {| Percentage := float64_of_int 20 / float64_of_int 100;
              Current := 10; Total := 50 |}).
  vm_compute. reflexivity.
Defined.

(** X6: when the last line of the logs that the pattern matches has a bar
    without [|] inside and the digits of its total are not followed by
    another digit, [Progress] reports the numbers written on that line: the
    percentage divided by 100, current and total (each zero when it does
    not fit in 64 bits), whatever follows the total on the line. *)
Theorem Progress_plain_line (p : Prediction) (logs : string)
    (pre post : list text) (ws1 pct ws2 dots ws3 cur tot rest : text) :
  Logs p = Some logs ->
  Strings.Split (bytes_of logs) "010"%char
  = pre ++ (progress_text ws1 pct ws2 dots ws3 cur tot ++ rest) :: post ->
  plain_progress ws1 pct ws2 dots ws3 cur tot rest ->
  (forall l', l' ∈ post -> MatchString (MustCompile pattern) l' = false) ->
  Progress p
  = Some {| Percentage :=
              float64_of_int (int_of_group pct) / float64_of_int 100;
            Current := int_of_group cur;
            Total := int_of_group tot |}.
Proof.
  rewrite MustCompile_pattern. intros Hlogs Hsplit Hplain Hpost.
  pose proof (plain_progress_match _ _ _ _ _ _ _ _ Hplain) as Hpm.
  rewrite (Progress_at_last_match p logs pre post _ Hlogs Hsplit).
  - rewrite (FindStringSubmatch_plain _ _ _ _ _ _ _ _ Hplain).
    rewrite (snapshot_of_groups _ _ _ _ Hpm). reflexivity.
  - eexists _, rest, pct, cur, tot. split; [reflexivity | exact Hpm].
  - intros l' Hl' Hm. apply MatchString_progress in Hm.
    rewrite (Hpost l' Hl') in Hm. discriminate Hm.
Qed.

Lemma Progress_plain_line_witness :
  Progress (prediction_with_logs example_logs)
  = Some {| Percentage :=
              float64_of_int (int_of_group (bytes_of "20")) / float64_of_int 100;
            Current := int_of_group (bytes_of "10");
            Total := int_of_group (bytes_of "50") |}.
Proof.
  apply (Progress_plain_line (prediction_with_logs example_logs) example_logs
           [bytes_of "10%|#   |5/50"] [bytes_of "not a progress line"]
           (bytes_of "  ") (bytes_of "20") (bytes_of " ") (bytes_of "##  ")
           (bytes_of " ") (bytes_of "10") (bytes_of "50") []).
  - reflexivity.
  - vm_compute. reflexivity.
  - unfold plain_progress, all_in.
    repeat apply conj; try discriminate; try (repeat constructor).
    intros Hin. vm_compute in Hin. apply list_elem_of_In in Hin. simpl in Hin.
    intuition discriminate.
  - intros l' Hl'. apply list_elem_of_singleton in Hl'. subst l'.
    vm_compute. reflexivity.
Defined.

End ProgressResult.

(** ** Lines appended to the logs *)

Section Lines.
Import Regexp.

Lemma Split_nonempty s sep : Strings.Split s sep <> [].
Proof.
  destruct s as [|a s]; simpl; [discriminate |].
  destruct (Ascii.eqb a sep); [discriminate |].
  destruct (Strings.Split s sep); discriminate.
Qed.

Lemma Split_app s t sep :
  Strings.Split (s ++ sep :: t) sep = Strings.Split s sep ++ Strings.Split t sep.
Proof.
  induction s as [|a s IH]; simpl.
  - rewrite Ascii.eqb_refl. reflexivity.
  - destruct (Ascii.eqb a sep); [rewrite IH; reflexivity |].
    rewrite IH. pose proof (Split_nonempty s sep).
    destruct (Strings.Split s sep); [congruence | reflexivity].
Qed.

Lemma Split_no_sep l sep : sep ∉ l -> Strings.Split l sep = [l].
Proof.
  induction l as [|a l IH]; intros Hsep; simpl; [reflexivity |].
  apply not_elem_of_cons in Hsep as [Hne Hsep].
  destruct (Ascii.eqb_spec a sep) as [->|_]; [congruence |].
  rewrite (IH Hsep). reflexivity.
Qed.

Lemma bytes_of_app s1 s2 : bytes_of (s1 ++ s2) = bytes_of s1 ++ bytes_of s2.
Proof.
  induction s1 as [|a s1 IH]; simpl; [reflexivity |].
  unfold bytes_of in *. simpl. rewrite IH. reflexivity.
Qed.

Lemma Progress_loop_app re lines extra n :
  (n <= length lines)%nat ->
  Progress_loop re (lines ++ extra) n = Progress_loop re lines n.
Proof.
  induction n as [|n IH]; intros Hn; [reflexivity |].
  cbn [Progress_loop]. rewrite lookup_total_app_l by lia.
  rewrite IH by lia. reflexivity.
Qed.

(** X7: output appended to the logs as one more line that the pattern does
    not match leaves the result of [Progress] as it was, even when the line
    would pass the test on its trimmed form. *)
Theorem Progress_ignores_trailing_line (p q : Prediction) (logs l : string) :
  Logs p = Some logs ->
  Logs q = Some (logs ++ String "010"%char l)%string ->
  "010"%char ∉ bytes_of l ->
  MatchString (MustCompile pattern) (bytes_of l) = false ->
  Progress q = Progress p.
Proof.
  rewrite MustCompile_pattern. intros Hp Hq Hnl Hno.
  rewrite (Progress_unfold p logs Hp), (Progress_unfold q _ Hq).
  rewrite bytes_of_app.
  change (bytes_of (String "010"%char l)) with ("010"%char :: bytes_of l).
  rewrite Split_app, (Split_no_sep _ _ Hnl), length_app.
  cbn [length]. rewrite Nat.add_1_r.
  rewrite (Progress_loop_skip _ _
             (length (Strings.Split (bytes_of logs) "010"%char))).
  - apply Progress_loop_app. lia.
  - lia.
  - intros j Hj Hm. replace j with (length (Strings.Split (bytes_of logs) "010"%char))
      in Hm by lia.
    rewrite list_lookup_total_middle in Hm by reflexivity.
    apply MatchString_progress in Hm. congruence.
Qed.

Lemma Progress_ignores_trailing_line_witness :
  Progress (prediction_with_logs ("10%|#|1/2" ++ String "010"%char "done"))
  = Progress (prediction_with_logs "10%|#|1/2").
Proof.
  apply (Progress_ignores_trailing_line (prediction_with_logs "10%|#|1/2")
           (prediction_with_logs ("10%|#|1/2" ++ String "010"%char "done"))
           "10%|#|1/2" "done").
  - reflexivity.
  - reflexivity.
  - intros Hin. apply list_elem_of_In in Hin. simpl in Hin.
    intuition discriminate.
  - vm_compute. reflexivity.
Defined.

End Lines.

(** ** Serialization never panics *)

Section Failures.

Lemma marshal_members_no_panic (f : value -> result json) kvs :
  (forall v msg, f v <> Panic msg) ->
  forall msg, marshal_members f kvs <> Panic msg.
Proof.
  intros Hf. induction kvs as [|[k v] kvs IH]; intros msg; simpl;
    [discriminate |].
  destruct (f v) as [j|e|m] eqn:Hv; [| discriminate | exfalso; exact (Hf _ _ Hv)].
  destruct (marshal_members f kvs) as [js|e|m] eqn:Hm; try discriminate.
  exfalso. exact (IH m eq_refl).
Qed.

Lemma marshal_with_no_panic (enter : loc -> result json) :
  (forall l msg, enter l <> Panic msg) ->
  forall v msg, marshal_with enter v <> Panic msg.
Proof.
  intros He v.
  induction v as [ |b|z|s|vs IH|es|f|m| ] using value_nested_ind;
    intros msg; try discriminate.
  - simpl.
    assert (Hitems : forall m, marshal_items (marshal_with enter) vs <> Panic m).
    { induction IH as [|v vs Hv _ IHvs]; intros m; simpl; [discriminate |].
      destruct (marshal_with enter v) as [j|e|m'] eqn:Hj;
        [| discriminate | exfalso; exact (Hv m' eq_refl)].
      destruct (marshal_items (marshal_with enter) vs) as [js|e|m'] eqn:Hjs;
        try discriminate.
      exfalso. exact (IHvs m' eq_refl). }
    destruct (marshal_items (marshal_with enter) vs) as [js|e|m] eqn:Hjs;
      try discriminate.
    exfalso. exact (Hitems m eq_refl).
  - destruct f; discriminate.
  - destruct m as [l|]; [apply He | discriminate].
Qed.

Lemma Marshal_fuel_no_panic n h v msg : Marshal_fuel n h v <> Panic msg.
Proof.
  revert v msg. induction n as [|n IH]; intros v msg.
  - apply marshal_with_no_panic. intros l m. discriminate.
  - apply (marshal_with_no_panic
             (fun l => result_map JObject
                         (marshal_members (Marshal_fuel n h)
                            (sorted_entries (heap_get h l))))).
    intros l m.
    destruct (marshal_members (Marshal_fuel n h) (sorted_entries (heap_get h l)))
      as [js|e|m'] eqn:Hm; try discriminate.
    exfalso. exact (marshal_members_no_panic _ _ IH m' Hm).
Qed.

(** [json.Marshal] returns a document or an error. *)
Lemma Marshal_no_panic h v msg : Marshal h v <> Panic msg.
Proof. apply Marshal_fuel_no_panic. Qed.

End Failures.

(** ** Failures and effects of the request builder *)

Section BuilderEffects.

Lemma heap_get_Some_dom (h : heap) l k v :
  heap_get h l !! k = Some v -> l ∈ dom h.
Proof.
  unfold heap_get. intros H. apply elem_of_dom.
  destruct (h !! l); [eauto |]. simpl in H. rewrite lookup_empty in H.
  discriminate H.
Qed.

(** The location of the payload map is not a map of the caller's other
    than the base payload. *)
Lemma payload_loc_other data input (h : heap) l :
  l ∈ dom h -> data <> Some l ->
  match data with
  | Some d => d
  | None => fresh (dom (rewrite_files input h))
  end <> l.
Proof.
  intros Hl Hd. destruct data as [d|]; [congruence |].
  intros Heq. apply (is_fresh (dom (rewrite_files input h))).
  rewrite Heq. apply rewrite_files_dom, Hl.
Qed.

Lemma rewrite_files_lookup_ne input (h : heap) l :
  input <> Some l -> rewrite_files input h !! l = h !! l.
Proof.
  intros Hne. unfold rewrite_files. destruct input as [l'|]; [| reflexivity].
  destruct (h !! l'); [| reflexivity].
  apply lookup_insert_ne. congruence.
Qed.

(** The input map after the builder has run. *)
Lemma builder_input_map r ctx path data l webhook stream h h' res :
  createPredictionRequest r ctx path data (Some l) webhook stream h = (h', res) ->
  l ∈ dom h -> no_nil_file (Some l) h -> data <> Some l ->
  h' !! l = Some (file_to_url <$> heap_get h l).
Proof.
  intros H Hl Hnil Hdata.
  rewrite (createPredictionRequest_spec _ _ _ _ _ _ _ _ Hnil) in H.
  cbv zeta in H. injection H as <- _.
  rewrite lookup_insert_ne
    by exact (payload_loc_other data (Some l) h l Hl Hdata).
  apply elem_of_dom in Hl as [m Hm]. unfold rewrite_files, heap_get.
  rewrite Hm. simpl. apply lookup_insert_eq.
Qed.

Lemma builder_frame r ctx path data input webhook stream h h' res l :
  createPredictionRequest r ctx path data input webhook stream h = (h', res) ->
  l ∈ dom h -> input <> Some l -> data <> Some l ->
  h' !! l = h !! l.
Proof.
  intros H Hl Hin Hdata.
  destruct (convert_files_cases input h) as [[Hnil _]|Hnone].
  - rewrite (createPredictionRequest_spec _ _ _ _ _ _ _ _ Hnil) in H.
    cbv zeta in H. injection H as <- _.
    rewrite lookup_insert_ne
      by exact (payload_loc_other data input h l Hl Hdata).
    apply rewrite_files_lookup_ne, Hin.
  - unfold createPredictionRequest in H. rewrite Hnone in H.
    injection H as <- _. reflexivity.
Qed.

(** The errors of the builder. *)
Lemma builder_errors r ctx path data input webhook stream h e :
  (createPredictionRequest r ctx path data input webhook stream h).2 = Err e ->
  (exists cause, e = ErrWrap "failed to marshal request body" cause)
  \/ (exists body cause,
        newRequest r ctx "POST" path body = Err cause
        /\ e = ErrWrap "failed to create prediction request" cause).
Proof.
  destruct (convert_files_cases input h) as [[Hnil _]|Hnone].
  - rewrite (createPredictionRequest_spec _ _ _ _ _ _ _ _ Hnil).
    cbv zeta. cbn [snd]. unfold build_outcome.
    destruct (Marshal _ _) as [body|cause|msg]; [| | discriminate].
    + destruct (newRequest r ctx "POST" path body) as [req|cause|msg] eqn:Hn;
        try discriminate.
      intros [= <-]. right. eauto.
    + intros [= <-]. left. eauto.
  - unfold createPredictionRequest. rewrite Hnone. discriminate.
Qed.

Lemma file_to_url_idemp v : file_to_url (file_to_url v) = file_to_url v.
Proof. destruct v as [ | | | | | |[f|]| | ]; reflexivity. Qed.

Lemma fill_payload_keys m input webhook stream k :
  is_Some (fill_payload m input webhook stream !! k) ->
  is_Some (m !! k)
  \/ k ∈ ["input"; "webhook"; "webhook_events_filter"; "stream"].
Proof.
  intros Hk.
  destruct (decide (k ∈ ["input"; "webhook"; "webhook_events_filter"; "stream"]))
    as [Hin|Hnin]; [right; exact Hin | left].
  rewrite fill_payload_other in Hk; [exact Hk | | | |];
    intros ->; apply Hnin; set_solver.
Qed.

(** X8: a nil [*File] among the entries of the input map makes the request
    builder panic at [file.URLs], and [CreatePrediction] with it: neither
    returns a request, a prediction or an error. *)
Theorem nil_file_panics (P : parser) r ctx path identifier data l webhook
    stream h k :
  heap_get h l !! k = Some (VFile None) ->
  (exists msg,
     (createPredictionRequest r ctx path data (Some l) webhook stream h).2
     = Panic msg)
  /\ (exists msg,
        (CreatePrediction P r ctx identifier (Some l) webhook stream h).2
        = Panic msg).
Proof.
  intros Hk. split.
  - unfold createPredictionRequest. rewrite (convert_files_nil l h k Hk).
    simpl. eauto.
  - pose proof (heap_get_Some_dom _ _ _ _ Hk) as Hl.
    assert (Hd : fresh (dom h) <> l).
    { intros Heq. apply (is_fresh (dom h)). rewrite Heq. exact Hl. }
    assert (Hpanic : forall path m,
      createPredictionRequest r ctx path (Some (fresh (dom h))) (Some l)
        webhook stream (<[fresh (dom h) := m]> h)
      = (<[fresh (dom h) := m]> h,
         Panic "invalid memory address or nil pointer dereference")).
    { intros path' m. unfold createPredictionRequest.
      rewrite (convert_files_nil l _ k); [reflexivity |].
      rewrite heap_get_insert_ne by exact Hd. exact Hk. }
    unfold CreatePrediction.
    destruct (P identifier) as [[o n [v|]]|e|msg]; cbv zeta;
      rewrite ?heap_store_insert, ?Hpanic; simpl; eauto.
Qed.

Lemma nil_file_panics_witness :
  (exists msg,
     (createPredictionRequest example_client ctx_background "/predictions" None
        (Some 1%positive) None false nil_file_heap).2 = Panic msg)
  /\ (exists msg,
        (CreatePrediction ParseIdentifier_model example_client ctx_background
           "owner/name" (Some 1%positive) None false nil_file_heap).2
        = Panic msg).
Proof.
  apply (nil_file_panics ParseIdentifier_model example_client ctx_background
           "/predictions" "owner/name" None 1%positive None false
           nil_file_heap "image").
  vm_compute. reflexivity.
Defined.

(** X9: when the input map holds a value that [json.Marshal] cannot
    encode, the request builder returns the error of [json.Marshal] wrapped
    under "failed to marshal request body", the same for every client: no
    request is constructed. *)
Theorem unencodable_input_fails ctx path data l webhook stream h k :
  heap_get h l !! k = Some VFunc ->
  no_nil_file (Some l) h ->
  data <> Some l ->
  exists cause,
    forall r,
      (createPredictionRequest r ctx path data (Some l) webhook stream h).2
      = Err (ErrWrap "failed to marshal request body" cause).
Proof.
  intros Hk Hnil Hdata.
  pose proof (heap_get_Some_dom _ _ _ _ Hk) as Hl.
  pose proof (payload_loc_other data (Some l) h l Hl Hdata) as Hd.
  set (h1 := rewrite_files (Some l) h) in *.
  set (d := match data with Some d => d | None => fresh (dom h1) end) in *.
  set (base := match data with Some d => heap_get h1 d | None => ∅ end).
  set (h' := <[d := fill_payload base (Some l) webhook stream]> h1).
  assert (Hrun : forall r,
    createPredictionRequest r ctx path data (Some l) webhook stream h
    = (h', build_outcome r ctx path (Marshal h' (VMap (Some d))))).
  { intros r. apply createPredictionRequest_spec, Hnil. }
  destruct (Marshal h' (VMap (Some d))) as [body|cause|msg] eqn:Hm.
  - exfalso.
    apply Marshal_map in Hm as (members & _ & Hsome & _).
    destruct (Hsome "input" (VMap (Some l))) as (j & _ & Hj).
    { unfold h'. rewrite heap_get_insert_eq. apply fill_payload_input. }
    apply Marshal_map in Hj as (members' & _ & Hsome' & _).
    destruct (Hsome' k VFunc) as (j' & _ & Hj'); [| discriminate Hj'].
    unfold h'. rewrite heap_get_insert_ne by exact Hd.
    unfold h1. rewrite rewrite_files_get, decide_True by reflexivity.
    rewrite Hk. reflexivity.
  - exists cause. intros r. rewrite Hrun. reflexivity.
  - exfalso. exact (Marshal_no_panic _ _ _ Hm).
Qed.

Lemma unencodable_input_fails_witness :
  exists cause,
    forall r,
      (createPredictionRequest r ctx_background "/predictions" None
         (Some 1%positive) None false func_heap).2
      = Err (ErrWrap "failed to marshal request body" cause).
Proof.
  apply (unencodable_input_fails ctx_background "/predictions" None 1%positive
           None false func_heap "callback").
  - vm_compute. reflexivity.
  - apply convert_files_Some. vm_compute. reflexivity.
  - discriminate.
Defined.

(** X10: an error returned by [CreatePrediction] is a cause wrapped once,
    under one of three messages: "failed to marshal request body", "failed
    to create prediction request" with the error of [newRequest], or
    "failed to create prediction" with the error of [do].  An error of the
    request builder is handed on as it is, not wrapped again. *)
Theorem CreatePrediction_errors (P : parser) r ctx identifier input webhook
    stream h e :
  (CreatePrediction P r ctx identifier input webhook stream h).2 = Err e ->
  (exists cause, e = ErrWrap "failed to marshal request body" cause)
  \/ (exists path body cause,
        newRequest r ctx "POST" path body = Err cause
        /\ e = ErrWrap "failed to create prediction request" cause)
  \/ (exists req out cause,
        do r req zero_Prediction = (out, Some cause)
        /\ e = ErrWrap "failed to create prediction" cause).
Proof.
  assert (Hgen : forall path h0,
    (let '(h1, built) :=
       createPredictionRequest r ctx path (Some (fresh (dom h))) input webhook
         stream h0 in
     match built with
     | Ok req =>
         let '(prediction, o) := do r req zero_Prediction in
         match o with
         | Some e => (h1, Err (ErrWrap "failed to create prediction" e))
         | None => (h1, Ok prediction)
         end
     | Err e => (h1, Err e)
     | Panic msg => (h1, Panic msg)
     end).2 = Err e ->
    (exists cause, e = ErrWrap "failed to marshal request body" cause)
    \/ (exists path body cause,
          newRequest r ctx "POST" path body = Err cause
          /\ e = ErrWrap "failed to create prediction request" cause)
    \/ (exists req out cause,
          do r req zero_Prediction = (out, Some cause)
          /\ e = ErrWrap "failed to create prediction" cause)).
  { intros path h0.
    pose proof (builder_errors r ctx path (Some (fresh (dom h))) input webhook
                  stream h0) as Hb.
    destruct (createPredictionRequest r ctx path (Some (fresh (dom h))) input
                webhook stream h0) as [h1 [req|e0|msg]]; simpl in Hb |- *.
    - destruct (do r req zero_Prediction) as [out [cause|]] eqn:Hdo; simpl;
        [| discriminate].
      intros [= <-]. right. right. eauto.
    - intros [= <-]. destruct (Hb e0 eq_refl) as [Hm|(body & cause & Hn & ->)];
        [left; exact Hm | right; left; eauto].
    - discriminate. }
  unfold CreatePrediction.
  destruct (P identifier) as [[o n [v|]]|e0|msg]; try apply Hgen.
  discriminate.
Qed.

Lemma CreatePrediction_errors_witness :
  let e := ErrWrap "failed to create prediction" (ErrNew "connection refused") in
  (exists cause, e = ErrWrap "failed to marshal request body" cause)
  \/ (exists path body cause,
        newRequest failing_client ctx_background "POST" path body = Err cause
        /\ e = ErrWrap "failed to create prediction request" cause)
  \/ (exists req out cause,
        do failing_client req zero_Prediction = (out, Some cause)
        /\ e = ErrWrap "failed to create prediction" cause).
Proof.
  cbv zeta.
  apply (CreatePrediction_errors ParseIdentifier_model failing_client
           ctx_background "owner/name" None None false ∅).
  vm_compute. reflexivity.
Defined.

(** X11: the body of a request that is built has the member stream, set
    to true, exactly when streaming is asked for, provided that the base
    payload map does not carry the key stream already. *)
Theorem createPredictionRequest_stream r ctx path data input webhook stream
    h h' req :
  createPredictionRequest r ctx path data input webhook stream h = (h', Ok req) ->
  (forall d, data = Some d -> heap_get h d !! "stream" = None) ->
  exists body,
    newRequest r ctx "POST" path body = Ok req
    /\ json_get "stream" body = if stream then Some (JBool true) else None.
Proof.
  intros H Hbase.
  destruct (convert_files_cases input h) as [[Hnil _]|Hnone].
  2:{ unfold createPredictionRequest in H. rewrite Hnone in H. discriminate H. }
  rewrite (createPredictionRequest_spec _ _ _ _ _ _ _ _ Hnil) in H.
  cbv zeta in H. injection H as <- H.
  apply build_outcome_Ok in H as (body & Hbody & Hreq).
  exists body. split; [exact Hreq |].
  set (base := match data with
               | Some d => heap_get (rewrite_files input h) d
               | None => ∅
               end) in *.
  assert (Hb : base !! "stream" = None).
  { unfold base. destruct data as [d0|]; [| apply lookup_empty].
    rewrite rewrite_files_get, (Hbase d0 eq_refl). destruct (decide _); auto. }
  apply Marshal_map in Hbody as (members & -> & Hsome & Hnone).
  rewrite heap_get_insert_eq in Hsome, Hnone. simpl.
  destruct stream.
  - destruct (Hsome _ _ (fill_payload_stream base input webhook))
      as (j & -> & Hj). injection Hj as <-. reflexivity.
  - apply Hnone. unfold fill_payload.
    destruct webhook as [w|]; [destruct (0 <? length (Webhook.Events w))%nat |];
      simplify_map_eq; exact Hb.
Qed.

Lemma createPredictionRequest_stream_witness :
  exists body,
    newRequest example_client ctx_background "POST" "/predictions" body
    = Ok {| req_method := "POST";
            req_url := "https://api.replicate.com/v1/predictions";
            req_body := JObject [("input", JNull); ("stream", JBool true)] |}
    /\ json_get "stream" body = Some (JBool true).
Proof.
  apply (createPredictionRequest_stream example_client ctx_background
           "/predictions" None None None true ∅
           (<[1%positive := fill_payload ∅ None None true]> ∅)).
  - vm_compute. reflexivity.
  - intros d Hd. discriminate Hd.
Defined.

(** X12: whatever the outcome, the request builder changes no map of the
    heap other than the input map and the base payload map, and
    [CreatePrediction], whose payload map is a new one, changes no map of
    the caller's other than the input map. *)
Theorem caller_maps_untouched r ctx input webhook stream (h : heap) l :
  l ∈ dom h ->
  input <> Some l ->
  (forall path data h' res,
     createPredictionRequest r ctx path data input webhook stream h = (h', res) ->
     data <> Some l -> h' !! l = h !! l)
  /\ (forall (P : parser) identifier h' res,
        CreatePrediction P r ctx identifier input webhook stream h = (h', res) ->
        h' !! l = h !! l).
Proof.
  intros Hl Hin. split.
  - intros path data h' res H Hdata. eapply builder_frame; eauto.
  - intros P identifier h' res H.
    assert (Hd : fresh (dom h) <> l).
    { intros Heq. apply (is_fresh (dom h)). rewrite Heq. exact Hl. }
    assert (Hgen : forall path m,
      (let '(h1, built) :=
         createPredictionRequest r ctx path (Some (fresh (dom h))) input webhook
           stream (<[fresh (dom h) := m]> h) in
       match built with
       | Ok req =>
           let '(prediction, o) := do r req zero_Prediction in
           match o with
           | Some e => (h1, Err (ErrWrap "failed to create prediction" e))
           | None => (h1, Ok prediction)
           end
       | Err e => (h1, Err e)
       | Panic msg => (h1, Panic msg)
       end) = (h', res) ->
      h' !! l = h !! l).
    { intros path m Hrun.
      destruct (createPredictionRequest r ctx path (Some (fresh (dom h))) input
                  webhook stream (<[fresh (dom h) := m]> h))
        as [h1 built] eqn:Hb.
      assert (Hh1 : h1 !! l = h !! l).
      { rewrite (builder_frame _ _ _ _ _ _ _ _ _ _ l Hb).
        - apply lookup_insert_ne, Hd.
        - rewrite dom_insert_L. set_solver.
        - exact Hin.
        - congruence. }
      destruct built as [req|e|msg].
      - destruct (do r req zero_Prediction) as [p [e|]];
          injection Hrun as <- _; exact Hh1.
      - injection Hrun as <- _. exact Hh1.
      - injection Hrun as <- _. exact Hh1. }
    unfold CreatePrediction in H.
    destruct (P identifier) as [[o n [v|]]|e0|msg]; cbv zeta in H;
      rewrite ?heap_store_insert in H;
      try (eapply Hgen; exact H).
    injection H as <- _. reflexivity.
Qed.

Lemma caller_maps_untouched_witness :
  (forall path data h' res,
     createPredictionRequest example_client ctx_background path data
       (Some 1%positive) None false two_map_heap = (h', res) ->
     data <> Some 2%positive -> h' !! 2%positive = two_map_heap !! 2%positive)
  /\ (forall (P : parser) identifier h' res,
        CreatePrediction P example_client ctx_background identifier
          (Some 1%positive) None false two_map_heap = (h', res) ->
        h' !! 2%positive = two_map_heap !! 2%positive).
Proof.
  apply (caller_maps_untouched example_client ctx_background (Some 1%positive)
           None false two_map_heap 2%positive).
  - apply elem_of_dom. vm_compute. eauto.
  - discriminate.
Defined.

(** X13: after a call of the request builder no entry of the input map is
    a file any more, and a second call with the same input map leaves the
    map as the first call left it. *)
Theorem rewriting_twice r1 r2 ctx1 ctx2 path1 path2 data1 data2 l webhook1
    webhook2 stream1 stream2 h h1 res1 h2 res2 :
  createPredictionRequest r1 ctx1 path1 data1 (Some l) webhook1 stream1 h
  = (h1, res1) ->
  createPredictionRequest r2 ctx2 path2 data2 (Some l) webhook2 stream2 h1
  = (h2, res2) ->
  l ∈ dom h -> no_nil_file (Some l) h ->
  data1 <> Some l -> data2 <> Some l ->
  (forall k f, heap_get h1 l !! k <> Some (VFile f))
  /\ h2 !! l = h1 !! l.
Proof.
  intros H1 H2 Hl Hnil Hd1 Hd2.
  pose proof (builder_input_map _ _ _ _ _ _ _ _ _ _ H1 Hl Hnil Hd1) as Hm1.
  assert (Hget : heap_get h1 l = file_to_url <$> heap_get h l).
  { unfold heap_get at 1. rewrite Hm1. reflexivity. }
  assert (Hnofile : forall k f, heap_get h1 l !! k <> Some (VFile f)).
  { intros k f. rewrite Hget, lookup_fmap.
    destruct (heap_get h l !! k) as [v|] eqn:Hk; [| discriminate].
    simpl. destruct v as [ | | | | | |[f0|]| | ]; try discriminate.
    exfalso. exact (Hnil l k eq_refl Hk). }
  split; [exact Hnofile |].
  assert (Hl1 : l ∈ dom h1) by (apply elem_of_dom; eauto).
  assert (Hnil1 : no_nil_file (Some l) h1).
  { intros l0 k [= <-]. apply Hnofile. }
  rewrite (builder_input_map _ _ _ _ _ _ _ _ _ _ H2 Hl1 Hnil1 Hd2), Hm1, Hget.
  f_equal. rewrite <- map_fmap_compose. apply map_fmap_ext.
  intros k v _. apply file_to_url_idemp.
Qed.

Lemma rewriting_twice_witness :
  let h1 :=
    (createPredictionRequest example_client ctx_background "/predictions" None
       (Some 1%positive) None false example_heap).1 in
  let h2 :=
    (createPredictionRequest example_client ctx_background "/predictions" None
       (Some 1%positive) None false h1).1 in
  (forall k f, heap_get h1 1%positive !! k <> Some (VFile f))
  /\ h2 !! 1%positive = h1 !! 1%positive.
Proof.
  cbv zeta.
  apply (rewriting_twice example_client example_client ctx_background
           ctx_background "/predictions" "/predictions" None None 1%positive
           None None false false example_heap _ _ _ _
           (surjective_pairing _) (surjective_pairing _)).
  - apply elem_of_dom. vm_compute. eauto.
  - apply convert_files_Some. vm_compute. reflexivity.
  - discriminate.
  - discriminate.
Defined.

(** X14: a nil input map is sent as null and an empty input map as the
    empty object: the member input is in the body in both cases. *)
Theorem empty_input_body r ctx path data input webhook stream h h' req :
  createPredictionRequest r ctx path data input webhook stream h = (h', Ok req) ->
  (forall l, input = Some l -> h !! l = Some ∅ /\ data <> Some l) ->
  exists body,
    newRequest r ctx "POST" path body = Ok req
    /\ json_get "input" body
       = Some match input with
              | Some _ => JObject []
              | None => JNull
              end.
Proof.
  intros H Hin.
  destruct (convert_files_cases input h) as [[Hnil _]|Hnone].
  2:{ unfold createPredictionRequest in H. rewrite Hnone in H. discriminate H. }
  rewrite (createPredictionRequest_spec _ _ _ _ _ _ _ _ Hnil) in H.
  cbv zeta in H. injection H as <- H.
  apply build_outcome_Ok in H as (body & Hbody & Hreq).
  exists body. split; [exact Hreq |].
  apply Marshal_map in Hbody as (members & -> & Hsome & _).
  rewrite heap_get_insert_eq in Hsome.
  destruct (Hsome _ _ (fill_payload_input _ input webhook stream))
    as (j & Hj & Hm).
  simpl. rewrite Hj. f_equal.
  destruct input as [l|]; [| injection Hm as <-; reflexivity].
  destruct (Hin l eq_refl) as [Hl Hdata].
  assert (Hdom : l ∈ dom h) by (apply elem_of_dom; eauto).
  apply Marshal_map in Hm as (ms & -> & _ & Hnone).
  destruct ms as [|[k0 j0] ms]; [reflexivity |].
  exfalso. specialize (Hnone k0). simpl in Hnone.
  rewrite String.eqb_refl in Hnone.
  assert (Hk : heap_get
                 (<[match data with
                    | Some d => d
                    | None => fresh (dom (rewrite_files (Some l) h))
                    end := fill_payload
                             match data with
                             | Some d => heap_get (rewrite_files (Some l) h) d
                             | None => ∅
                             end (Some l) webhook stream]>
                    (rewrite_files (Some l) h)) l !! k0 = None).
  { rewrite heap_get_insert_ne
      by exact (payload_loc_other data (Some l) h l Hdom Hdata).
    rewrite rewrite_files_get, decide_True by reflexivity.
    unfold heap_get. rewrite Hl. simpl. rewrite lookup_empty. reflexivity. }
  specialize (Hnone Hk). discriminate Hnone.
Qed.

Lemma empty_input_body_witness :
  exists body,
    newRequest example_client ctx_background "POST" "/predictions" body
    = Ok {| req_method := "POST";
            req_url := "https://api.replicate.com/v1/predictions";
            req_body := JObject [("input", JObject [])] |}
    /\ json_get "input" body = Some (JObject []).
Proof.
  eapply (empty_input_body example_client ctx_background "/predictions" None
            (Some 1%positive) None false empty_input_heap).
  - vm_compute. reflexivity.
  - intros l [= <-]. split; [vm_compute; reflexivity | discriminate].
Defined.

(** X15: the body that [CreatePrediction] serializes has no member other
    than version, input, webhook, webhook_events_filter and stream. *)
Theorem CreatePrediction_body_members (P : parser) r ctx identifier input
    webhook stream h :
  (forall msg, P identifier <> Panic msg) ->
  no_nil_file input h ->
  exists h' d path,
    CreatePrediction P r ctx identifier input webhook stream h
    = (h', create_outcome r
             (build_outcome r ctx path (Marshal h' (VMap (Some d)))))
    /\ forall body k,
         Marshal h' (VMap (Some d)) = Ok body ->
         is_Some (json_get k body) ->
         k ∈ ["version"; "input"; "webhook"; "webhook_events_filter"; "stream"].
Proof.
  intros HP Hnil.
  assert (Hrun : exists path m,
    (forall k, is_Some (m !! k) -> k = "version")
    /\ (forall k, m !! k <> Some (VFile None))
    /\ CreatePrediction P r ctx identifier input webhook stream h
       = let '(h', req) :=
           createPredictionRequest r ctx path (Some (fresh (dom h))) input
             webhook stream (<[fresh (dom h) := m]> h) in
         (h', create_outcome r req)).
  { assert (Hv : forall k,
      is_Some ((<["version" := VString identifier]> ∅ : gmap string value) !! k)
      -> k = "version").
    { intros k [v Hk]. destruct (decide (k = "version")) as [|Hne]; [assumption |].
      rewrite lookup_insert_ne, lookup_empty in Hk by congruence.
      discriminate Hk. }
    assert (Hf : forall k,
      (<["version" := VString identifier]> ∅ : gmap string value) !! k
      <> Some (VFile None)).
    { intros k. destruct (decide (k = "version")) as [->|Hne];
        simplify_map_eq; discriminate. }
    destruct (P identifier) as [[o n [v|]]|e|msg] eqn:Hid.
    - exists "/predictions", (<["version" := VString identifier]> ∅).
      split; [exact Hv |]. split; [exact Hf |].
      apply CreatePrediction_generic_path. right. eauto.
    - exists ("/models/" ++ o ++ "/" ++ n ++ "/predictions")%string, ∅.
      split; [intros k [v Hk]; rewrite lookup_empty in Hk; discriminate Hk |].
      split; [intros k; rewrite lookup_empty; discriminate |].
      apply (CreatePrediction_model_path P r ctx identifier input webhook
               stream h o n Hid).
    - exists "/predictions", (<["version" := VString identifier]> ∅).
      split; [exact Hv |]. split; [exact Hf |].
      apply CreatePrediction_generic_path. left. eauto.
    - exfalso. exact (HP msg eq_refl). }
  destruct Hrun as (path & m & Hm & Hmf & ->).
  rewrite (createPredictionRequest_spec _ _ _ _ _ _ _ _
             (no_nil_file_insert _ _ (fresh (dom h)) m Hnil Hmf)).
  cbv zeta. eexists _, (fresh (dom h)), path. split; [reflexivity |].
  intros body k Hbody Hk.
  apply Marshal_map in Hbody as (members & -> & _ & Hnone).
  rewrite heap_get_insert_eq in Hnone.
  destruct (fill_payload
              (heap_get (rewrite_files input (<[fresh (dom h) := m]> h))
                 (fresh (dom h))) input webhook stream !! k) as [v|] eqn:Hv.
  - destruct (fill_payload_keys _ _ _ _ k (mk_is_Some _ _ Hv)) as [Hbase|Hin];
      [| right; exact Hin].
    rewrite rewrite_files_get, heap_get_insert_eq in Hbase.
    assert (Hmk : is_Some (m !! k)).
    { destruct (decide _); [| exact Hbase].
      apply fmap_is_Some in Hbase. exact Hbase. }
    rewrite (Hm k Hmk). left.
  - exfalso. simpl in Hk. rewrite (Hnone k Hv) in Hk.
    destruct Hk as [? Hk]. discriminate Hk.
Qed.

Lemma CreatePrediction_body_members_witness :
  exists h' d path,
    CreatePrediction ParseIdentifier_model spy_client ctx_background
      "owner/name:v1" (Some 1%positive) (Some example_webhook) true example_heap
    = (h', create_outcome spy_client
             (build_outcome spy_client ctx_background path
                (Marshal h' (VMap (Some d)))))
    /\ forall body k,
         Marshal h' (VMap (Some d)) = Ok body ->
         is_Some (json_get k body) ->
         k ∈ ["version"; "input"; "webhook"; "webhook_events_filter"; "stream"].
Proof.
  apply (CreatePrediction_body_members ParseIdentifier_model spy_client
           ctx_background "owner/name:v1" (Some 1%positive)
           (Some example_webhook) true example_heap).
  - intros msg. vm_compute. discriminate.
  - apply convert_files_Some. vm_compute. reflexivity.
Defined.

End BuilderEffects.

(** ** Fetched predictions *)

Section Fetching.



End Fetching.
